(** * softarm: the raw-REPL serial driver of [micropython/read_i2c.py] and
      [micropython/espgui.py]

    A shallow embedding of the two host-side scripts that drive a
    MicroPython board over a serial line, and of the helper [set_pin] that
    [espgui.py] injects into the board.

    - Bytes are [list byte]; Python [str] values are lists of code points.
    - The serial port is a record threaded through every operation.  Time is
      counted in milliseconds; the simulated line says which bytes reach the
      host during each millisecond.
    - The polling loop of [exec_raw] has no exit other than the completion
      marker, so it is given a poll budget and returns [None] when the budget
      is used up before the loop breaks. *)

From Stdlib Require Import ZArith NArith Bool Lia DecimalFacts DecimalN.
From Stdlib Require Import Strings.Byte Strings.String.
From stdpp Require Import base list gmap.

Local Open Scope N_scope.

Abbreviation bytes := (list byte).
Abbreviation str := (list N).

(** ** Python built-ins used by the scripts *)

Module Py.

(** An ASCII literal as [bytes] and as [str]. *)
Definition b (s : string) : bytes := list_byte_of_string s.
Definition u (s : string) : str := List.map Byte.to_N (list_byte_of_string s).

Definition byte_eqb (x y : byte) : bool := Byte.to_N x =? Byte.to_N y.

Fixpoint bytes_eqb (x y : bytes) : bool :=
  match x, y with
  | [], [] => true
  | a :: x', c :: y' => byte_eqb a c && bytes_eqb x' y'
  | _, _ => false
  end.

(** [bytes.endswith(suffix)] *)
Definition endswith (x suffix : bytes) : bool :=
  (length suffix <=? length x)%nat
  && bytes_eqb (drop (length x - length suffix) x) suffix.

(** [bytes.split(sep)] for a one-byte separator: never an empty list. *)
Fixpoint split (sep : byte) (x : bytes) : list bytes :=
  match x with
  | [] => [[]]
  | c :: x' =>
      if byte_eqb c sep then [] :: split sep x'
      else match split sep x' with
           | seg :: segs => (c :: seg) :: segs
           | [] => [[c]]
           end
  end.

(** [str.isspace] on one code point: the white space [str.strip()] removes. *)
Definition isspace (c : N) : bool :=
  ((0x09 <=? c) && (c <=? 0x0D)) || ((0x1C <=? c) && (c <=? 0x20))
  || (c =? 0x85) || (c =? 0xA0) || (c =? 0x1680)
  || ((0x2000 <=? c) && (c <=? 0x200A))
  || (c =? 0x2028) || (c =? 0x2029) || (c =? 0x202F) || (c =? 0x205F)
  || (c =? 0x3000).

Fixpoint lstrip (s : str) : str :=
  match s with
  | [] => []
  | c :: s' => if isspace c then lstrip s' else s
  end.

(** Trailing white space goes: a character stays when something that is not
    white space follows it or it is not white space itself. *)
Fixpoint rstrip (s : str) : str :=
  match s with
  | [] => []
  | c :: s' =>
      match rstrip s' with
      | [] => if isspace c then [] else [c]
      | t => c :: t
      end
  end.

(** [str.strip()] *)
Definition strip (s : str) : str := rstrip (lstrip s).

(** [str.startswith(prefix)] *)
Fixpoint startswith (s prefix : str) {struct prefix} : bool :=
  match prefix, s with
  | [], _ => true
  | p :: prefix', c :: s' => (c =? p) && startswith s' prefix'
  | _ :: _, [] => false
  end.

(** [sub in s] on strings *)
Fixpoint contains (s sub : str) : bool :=
  startswith s sub ||
  match s with
  | [] => false
  | _ :: s' => contains s' sub
  end.

(** [bytes.strip()]: ASCII white space only. *)
Definition isspace_byte (c : byte) : bool :=
  let n := Byte.to_N c in
  (n =? 0x20) || ((0x09 <=? n) && (n <=? 0x0D)).

Fixpoint lstrip_bytes (x : bytes) : bytes :=
  match x with
  | [] => []
  | c :: x' => if isspace_byte c then lstrip_bytes x' else x
  end.

Fixpoint rstrip_bytes (x : bytes) : bytes :=
  match x with
  | [] => []
  | c :: x' =>
      match rstrip_bytes x' with
      | [] => if isspace_byte c then [] else [c]
      | t => c :: t
      end
  end.

Definition strip_bytes (x : bytes) : bytes := rstrip_bytes (lstrip_bytes x).

(** *** UTF-8 *)

Definition is_cont (n : N) : bool := (0x80 <=? n) && (n <? 0xC0).

(** [bytes.decode('utf-8', errors=...)].  [h] is what an ill-formed run is
    replaced with: U+FFFD for [errors='replace'], nothing for
    [errors='ignore'].  An ill-formed run is a bad start byte, or the longest
    prefix of a sequence that is still well formed; a sequence cut short by
    the end of the data is one run. *)
Fixpoint decode (h : str) (x : bytes) : str :=
  match x with
  | [] => []
  | b0 :: r1 =>
      let c0 := Byte.to_N b0 in
      if c0 <? 0x80 then c0 :: decode h r1
      else if c0 <? 0xC2 then h ++ decode h r1
      else if c0 <? 0xE0 then
        match r1 with
        | [] => h
        | b1 :: r2 =>
            let c1 := Byte.to_N b1 in
            if is_cont c1
            then ((c0 - 0xC0) * 64 + (c1 - 0x80)) :: decode h r2
            else h ++ decode h r1
        end
      else if c0 <? 0xF0 then
        match r1 with
        | [] => h
        | b1 :: r2 =>
            let c1 := Byte.to_N b1 in
            if negb (is_cont c1)
               || ((c0 =? 0xE0) && (c1 <? 0xA0))
               || ((c0 =? 0xED) && (0xA0 <=? c1))
            then h ++ decode h r1
            else
              match r2 with
              | [] => h
              | b2 :: r3 =>
                  let c2 := Byte.to_N b2 in
                  if is_cont c2
                  then ((c0 - 0xE0) * 4096 + (c1 - 0x80) * 64 + (c2 - 0x80))
                         :: decode h r3
                  else h ++ decode h r2
              end
        end
      else if c0 <? 0xF5 then
        match r1 with
        | [] => h
        | b1 :: r2 =>
            let c1 := Byte.to_N b1 in
            if negb (is_cont c1)
               || ((c0 =? 0xF0) && (c1 <? 0x90))
               || ((c0 =? 0xF4) && (0x90 <=? c1))
            then h ++ decode h r1
            else
              match r2 with
              | [] => h
              | b2 :: r3 =>
                  let c2 := Byte.to_N b2 in
                  if negb (is_cont c2) then h ++ decode h r2
                  else
                    match r3 with
                    | [] => h
                    | b3 :: r4 =>
                        let c3 := Byte.to_N b3 in
                        if is_cont c3
                        then ((c0 - 0xF0) * 262144 + (c1 - 0x80) * 4096
                              + (c2 - 0x80) * 64 + (c3 - 0x80))
                               :: decode h r4
                        else h ++ decode h r3
                    end
              end
        end
      else h ++ decode h r1
  end.

Definition decode_replace : bytes -> str := decode [0xFFFD].
Definition decode_ignore : bytes -> str := decode [].

Definition byte_of_N (n : N) : byte :=
  match Byte.of_N (n mod 256) with
  | Some c => c
  | None => x00
  end.

(** One code point in UTF-8; [None] for a surrogate (Python raises
    [UnicodeEncodeError]) and for a number that is no code point. *)
Definition encode1 (c : N) : option bytes :=
  if c <? 0x80 then Some [byte_of_N c]
  else if c <? 0x800 then
    Some [byte_of_N (0xC0 + c / 64); byte_of_N (0x80 + c mod 64)]
  else if c <? 0x10000 then
    if (0xD800 <=? c) && (c <? 0xE000) then None
    else Some [byte_of_N (0xE0 + c / 4096);
               byte_of_N (0x80 + (c / 64) mod 64);
               byte_of_N (0x80 + c mod 64)]
  else if c <? 0x110000 then
    Some [byte_of_N (0xF0 + c / 262144);
          byte_of_N (0x80 + (c / 4096) mod 64);
          byte_of_N (0x80 + (c / 64) mod 64);
          byte_of_N (0x80 + c mod 64)]
  else None.

(** [str.encode('utf-8')] *)
Fixpoint encode (s : str) : option bytes :=
  match s with
  | [] => Some []
  | c :: s' =>
      match encode1 c, encode s' with
      | Some x, Some y => Some (x ++ y)
      | _, _ => None
      end
  end.

(** *** Integers as text *)

Fixpoint digits (d : Decimal.uint) : str :=
  match d with
  | Decimal.Nil => []
  | Decimal.D0 d' => 48 :: digits d'
  | Decimal.D1 d' => 49 :: digits d'
  | Decimal.D2 d' => 50 :: digits d'
  | Decimal.D3 d' => 51 :: digits d'
  | Decimal.D4 d' => 52 :: digits d'
  | Decimal.D5 d' => 53 :: digits d'
  | Decimal.D6 d' => 54 :: digits d'
  | Decimal.D7 d' => 55 :: digits d'
  | Decimal.D8 d' => 56 :: digits d'
  | Decimal.D9 d' => 57 :: digits d'
  end.

(** [str(n)] for an [int]: what an f-string field and [print] show. *)
Definition str_of_N (n : N) : str := digits (N.to_uint n).

Definition str_of_Z (z : Z) : str :=
  match z with
  | Zneg p => 45 :: digits (Pos.to_uint p)
  | _ => str_of_N (Z.to_N z)
  end.

(** [sep.join(parts)] *)
Fixpoint join (sep : str) (parts : list str) : str :=
  match parts with
  | [] => []
  | [p] => p
  | p :: rest => p ++ sep ++ join sep rest
  end.

(** [repr] of a list of non-negative integers: [[8, 52]]. *)
Definition repr_list (l : list N) : str :=
  u "[" ++ join (u ", ") (List.map str_of_N l) ++ u "]".

(** *** [eval] on list displays

    [eval] is followed on one family of expressions only: a list display of
    decimal integer literals, blanks allowed around the items.  Any other
    text is outside the family ([EvalOutside]): Python evaluates it as an
    arbitrary expression, which is not modelled. *)

Inductive eval_result :=
  | EvalList (l : list N)
  | EvalOutside.

Inductive lit_state :=
  | LStart
  | LOpen
  | LNum (acc : Decimal.uint)
  | LAfterNum
  | LComma
  | LDone.

Definition push_digit (c : N) (acc : Decimal.uint) : option Decimal.uint :=
  if c =? 48 then Some (Decimal.D0 acc)
  else if c =? 49 then Some (Decimal.D1 acc)
  else if c =? 50 then Some (Decimal.D2 acc)
  else if c =? 51 then Some (Decimal.D3 acc)
  else if c =? 52 then Some (Decimal.D4 acc)
  else if c =? 53 then Some (Decimal.D5 acc)
  else if c =? 54 then Some (Decimal.D6 acc)
  else if c =? 55 then Some (Decimal.D7 acc)
  else if c =? 56 then Some (Decimal.D8 acc)
  else if c =? 57 then Some (Decimal.D9 acc)
  else None.

(** The digits read so far, last one first, as a number; a literal with a
    leading zero is no decimal literal. *)
Definition finish_literal (acc : Decimal.uint) : option N :=
  let d := Decimal.rev acc in
  if Decimal.uint_beq d (Decimal.unorm d) then Some (N.of_uint d) else None.

Definition is_blank (c : N) : bool := (c =? 32) || (c =? 9).

Fixpoint eval_display (st : lit_state) (items : list N) (s : str)
  : option (list N) :=
  match s with
  | [] => match st with LDone => Some (List.rev items) | _ => None end
  | c :: s' =>
      match st with
      | LStart => if c =? 91 then eval_display LOpen items s' else None
      | LOpen =>
          if is_blank c then eval_display LOpen items s'
          else if c =? 93 then eval_display LDone items s'
          else match push_digit c Decimal.Nil with
               | Some acc => eval_display (LNum acc) items s'
               | None => None
               end
      | LComma =>
          if is_blank c then eval_display LComma items s'
          else match push_digit c Decimal.Nil with
               | Some acc => eval_display (LNum acc) items s'
               | None => None
               end
      | LNum acc =>
          match push_digit c acc with
          | Some acc' => eval_display (LNum acc') items s'
          | None =>
              match finish_literal acc with
              | None => None
              | Some n =>
                  if is_blank c then eval_display LAfterNum (n :: items) s'
                  else if c =? 44 then eval_display LComma (n :: items) s'
                  else if c =? 93 then eval_display LDone (n :: items) s'
                  else None
              end
          end
      | LAfterNum =>
          if is_blank c then eval_display LAfterNum items s'
          else if c =? 44 then eval_display LComma items s'
          else if c =? 93 then eval_display LDone items s'
          else None
      | LDone => None
      end
  end.

Definition eval (s : str) : eval_result :=
  match eval_display LStart [] s with
  | Some l => EvalList l
  | None => EvalOutside
  end.

(** *** Exceptions *)

Inductive exn :=
  | RuntimeError (msg : str)
  | ConnectionError (msg : str)
  | UnicodeEncodeError.

Inductive outcome (A : Type) :=
  | Return (a : A)
  | Raise (e : exn).
Arguments Return {A} a.
Arguments Raise {A} e.

(** [str(e)] *)
Definition str_of_exn (e : exn) : str :=
  match e with
  | RuntimeError msg => msg
  | ConnectionError msg => msg
  | UnicodeEncodeError => u "'utf-8' codec can't encode character"
  end.

End Py.

(** ** The serial port ([serial.Serial]) and the clock ([time.sleep])

    Writes and reads take no time; [time_sleep] moves the clock and lets the
    bytes the line delivers meanwhile into the input buffer.  A write cannot
    fail here: [SerialException] is outside the model. *)

Record Serial := {
  now : nat;
  line : nat -> bytes;
  in_buf : bytes;
  out_log : list (nat * bytes)
}.

Definition arrivals (f : nat -> bytes) (t d : nat) : bytes :=
  concat (List.map f (seq t d)).

Definition ser_write (x : bytes) (s : Serial) : Serial :=
  {| now := now s; line := line s; in_buf := in_buf s;
     out_log := out_log s ++ [(now s, x)] |}.

Definition time_sleep (ms : nat) (s : Serial) : Serial :=
  {| now := now s + ms; line := line s;
     in_buf := in_buf s ++ arrivals (line s) (now s) ms;
     out_log := out_log s |}.

Definition ser_in_waiting (s : Serial) : nat := length (in_buf s).

Definition ser_read (n : nat) (s : Serial) : bytes * Serial :=
  (take n (in_buf s),
   {| now := now s; line := line s; in_buf := drop n (in_buf s);
      out_log := out_log s |}).

Definition ser_read_all (s : Serial) : bytes * Serial :=
  ser_read (ser_in_waiting s) s.

(** The bytes the host has written, in order, without the times. *)
Definition written (s : Serial) : list bytes := List.map snd (out_log s).

(** ** [micropython/read_i2c.py]: class [ESPI2C] *)

Module ReadI2C.
Import Py.

Definition PIN_SDA : N := 1.
Definition PIN_SCL : N := 2.
Definition I2C_FREQ : N := 100000.

(** [b'\x04>'], the end of a raw-REPL reply. *)
Definition marker : bytes := [x04; ">"%byte].

(** The [while True] loop of [exec_raw], run for at most [polls] rounds.
    [None]: the loop has not reached [break] within that many rounds. *)
Fixpoint read_until_marker (polls : nat) (ret : bytes) (s : Serial)
  : option (bytes * Serial) :=
  match polls with
  | O => None
  | S polls' =>
      if (0 <? ser_in_waiting s)%nat then
        let '(chunk, s1) := ser_read (ser_in_waiting s) s in
        let ret' := ret ++ chunk in
        if endswith ret' marker then Some (ret', s1)
        else read_until_marker polls' ret' (time_sleep 10 s1)
      else read_until_marker polls' ret (time_sleep 10 s)
  end.

(** The part of [exec_raw] after the loop ("Parse response"). *)
Definition parse_response (ret : bytes) : outcome str :=
  let parts := split x04 ret in
  if (2 <=? length parts)%nat then
    let output := strip (decode_replace (nth 0 parts [])) in
    let output := if startswith output (u "OK") then drop 2 output else output in
    let error := strip (decode_replace (nth 1 parts [])) in
    match error with
    | _ :: _ => Raise (RuntimeError (u "ESP32 Error: " ++ error))
    | [] => Return output
    end
  else Return [].

(** The part of [exec_raw] before the loop: Ctrl+A, settle, clear the input
    buffer, then code and Ctrl+D in one write.  [None]: the code does not
    encode. *)
Definition enter_raw (s : Serial) : Serial :=
  let s := ser_write [x01] s in
  let s := time_sleep 50 s in
  snd (ser_read_all s).

Definition send_code (code : str) (s : Serial) : option Serial :=
  match encode code with
  | Some payload => Some (ser_write (payload ++ [x04]) s)
  | None => None
  end.

Definition exec_raw (polls : nat) (code : str) (s : Serial)
  : option (outcome str * Serial) :=
  let s := enter_raw s in
  match send_code code s with
  | None => Some (Raise UnicodeEncodeError, s)
  | Some s =>
      match read_until_marker polls [] s with
      | Some (ret, s) => Some (parse_response ret, s)
      | None => None
      end
  end.

Definition init_code : str :=
  u "
import machine
import time
try:
    i2c = machine.SoftI2C(sda=machine.Pin(" ++ str_of_N PIN_SDA
  ++ u "), scl=machine.Pin(" ++ str_of_N PIN_SCL
  ++ u "), freq=" ++ str_of_N I2C_FREQ ++ u ")
    status = " ++ [34] ++ u "OK" ++ [34] ++ u "
except Exception as e:
    status = str(e)
".

(** [connect_and_init]: the printed lines are left out. *)
Definition connect_and_init (polls : nat) (s : Serial)
  : option (outcome unit * Serial) :=
  let s := ser_write [x03] s in
  let s := time_sleep 100 s in
  let s := ser_write [x01] s in
  let s := time_sleep 100 s in
  let s := snd (ser_read_all s) in
  match exec_raw polls init_code s with
  | Some (Return _, s) => Some (Return tt, s)
  | Some (Raise e, s) => Some (Raise e, s)
  | None => None
  end.

(** What [scan] hands back: a list of addresses, or the value of [eval] on a
    text that is no list display, which is not followed further. *)
Inductive scan_value :=
  | Addresses (l : list N)
  | Evaluated (text : str).

(** [scan]: the value and the lines printed on the way. *)
Definition scan (polls : nat) (s : Serial)
  : option (scan_value * list str * Serial) :=
  let printed := [u "Scanning I2C bus..."] in
  let code := u "print(i2c.scan())" in
  match exec_raw polls code s with
  | None => None
  | Some (Return result, s) =>
      match result with
      | _ :: _ =>
          match eval result with
          | EvalList l => Some (Addresses l, printed, s)
          | EvalOutside => Some (Evaluated result, printed, s)
          end
      | [] => Some (Addresses [], printed, s)
      end
  | Some (Raise e, s) =>
      Some (Addresses [], printed ++ [u "Scan failed: " ++ str_of_exn e], s)
  end.

End ReadI2C.

(** ** [micropython/read_i2c.py]: the other methods of [ESPI2C] and the
       script's main block *)

Module ESPI2C.
Import Py ReadI2C.

Definition SERIAL_PORT : str := u "/dev/tty.usbmodem101".

(** The command texts, as the f-strings build them from [int] arguments. *)
Definition read_cmd (address register num_bytes : Z) : str :=
  u "print(i2c.readfrom_mem(" ++ str_of_Z address ++ u ", "
  ++ str_of_Z register ++ u ", " ++ str_of_Z num_bytes ++ u "))".

Definition write_cmd (address register data_byte : Z) : str :=
  u "i2c.writeto_mem(" ++ str_of_Z address ++ u ", " ++ str_of_Z register
  ++ u ", bytes([" ++ str_of_Z data_byte ++ u "]))".

(** [read_from_mem]: the result ([None] for Python's [None]) and the lines
    printed. *)
Definition read_from_mem (polls : nat) (address register num_bytes : Z)
           (s : Serial) : option (option str * list str * Serial) :=
  match exec_raw polls (read_cmd address register num_bytes) s with
  | None => None
  | Some (Return result, s) => Some (Some result, [], s)
  | Some (Raise e, s) =>
      Some (None, [u "Read failed: " ++ str_of_exn e], s)
  end.

(** [write_to_mem]: it returns nothing; the lines printed. *)
Definition write_to_mem (polls : nat) (address register data_byte : Z)
           (s : Serial) : option (list str * Serial) :=
  match exec_raw polls (write_cmd address register data_byte) s with
  | None => None
  | Some (Return _, s) =>
      Some ([u "Wrote " ++ str_of_Z data_byte ++ u " to reg "
             ++ str_of_Z register ++ u " at addr " ++ str_of_Z address], s)
  | Some (Raise e, s) =>
      Some ([u "Write failed: " ++ str_of_exn e], s)
  end.

Fixpoint hexdigits (d : Hexadecimal.uint) : str :=
  match d with
  | Hexadecimal.Nil => []
  | Hexadecimal.D0 d' => 48 :: hexdigits d'
  | Hexadecimal.D1 d' => 49 :: hexdigits d'
  | Hexadecimal.D2 d' => 50 :: hexdigits d'
  | Hexadecimal.D3 d' => 51 :: hexdigits d'
  | Hexadecimal.D4 d' => 52 :: hexdigits d'
  | Hexadecimal.D5 d' => 53 :: hexdigits d'
  | Hexadecimal.D6 d' => 54 :: hexdigits d'
  | Hexadecimal.D7 d' => 55 :: hexdigits d'
  | Hexadecimal.D8 d' => 56 :: hexdigits d'
  | Hexadecimal.D9 d' => 57 :: hexdigits d'
  | Hexadecimal.Da d' => 97 :: hexdigits d'
  | Hexadecimal.Db d' => 98 :: hexdigits d'
  | Hexadecimal.Dc d' => 99 :: hexdigits d'
  | Hexadecimal.Dd d' => 100 :: hexdigits d'
  | Hexadecimal.De d' => 101 :: hexdigits d'
  | Hexadecimal.Df d' => 102 :: hexdigits d'
  end.

(** [hex(n)] for a non-negative [int]. *)
Definition hex (n : N) : str := u "0x" ++ hexdigits (N.to_hex_uint n).

(** [repr] of a list of strings that need no escapes: ['0x8', '0x34']. *)
Definition repr_plain_list (l : list str) : str :=
  u "[" ++ join (u ", ") (List.map (fun x => [39] ++ x ++ [39]) l) ++ u "]".

(** What the main block leaves behind: the lines printed and whether
    [esp.close()] was called.  [MainOutside]: [scan] handed back the value
    of [eval] on a text that is no list display, which is not followed. *)
Inductive main_result :=
  | MainDone (printed : list str) (closed : bool)
  | MainOutside.

(** The block under [if __name__ == "__main__"], once [serial.Serial] has
    opened the port: the constructor runs [connect_and_init]; an exception
    leaves [esp] at [None], so that [finally] closes nothing. *)
Definition main (polls : nat) (s : Serial) : option (main_result * Serial) :=
  let connecting := u "Connecting to " ++ SERIAL_PORT ++ u "..." in
  match connect_and_init polls s with
  | None => None
  | Some (Raise e, s) =>
      Some (MainDone [connecting; u "Error: " ++ str_of_exn e] false, s)
  | Some (Return _, s) =>
      let printed := [connecting; u "I2C initialized on ESP32."] in
      match scan polls s with
      | None => None
      | Some (Addresses devices, lines, s) =>
          Some (MainDone
                  (printed ++ lines ++
                   [u "Found devices at addresses: " ++ repr_list devices
                    ++ u " (Decimal)";
                    u "Found devices at addresses: "
                    ++ repr_plain_list (List.map hex devices) ++ u " (Hex)"])
                  true, s)
      | Some (Evaluated _, _, s) => Some (MainOutside, s)
      end
  end.

End ESPI2C.

(** ** [micropython/espgui.py]: class [ESP32Controller] *)

Module EspGui.
Import Py.

Definition nl : bytes := [x0a].

(** The lines of [ESP_INIT_CODE]; the literal opens and ends with a line
    break. *)
Definition ESP_INIT_CODE : bytes :=
  nl ++ b "import machine" ++
  nl ++ b "gpios = {}" ++
  nl ++ b "def set_pin(pin_num, state):" ++
  nl ++ b "    # Ensure pin is in our cache" ++
  nl ++ b "    if pin_num not in gpios:" ++
  nl ++ b "        gpios[pin_num] = machine.Pin(pin_num, machine.Pin.OUT)" ++
  nl ++ b "    " ++
  nl ++ b "    # Force output mode just in case it got reset" ++
  nl ++ b "    # gpios[pin_num].init(machine.Pin.OUT) " ++
  nl ++ b "    " ++
  nl ++ b "    # Set the value (1 or 0)" ++
  nl ++ b "    gpios[pin_num].value(1 if state else 0)" ++
  nl.

(** [ESP32Controller.__init__] once the port is open. *)
Definition controller_init (s : Serial) : outcome unit * Serial :=
  let s := ser_write [x03] s in
  let s := time_sleep 50 s in
  let s := ser_write [x01] s in
  let s := time_sleep 50 s in
  let s := snd (ser_read_all s) in
  let s := ser_write (strip_bytes ESP_INIT_CODE ++ nl) s in
  let s := time_sleep 20 s in
  let s := ser_write [x04] s in
  let s := time_sleep 100 s in
  let '(raw, s) := ser_read_all s in
  let response := decode_ignore raw in
  if contains response (u "Traceback") || contains response (u "Error")
     || contains response (u "SyntaxError")
  then (Raise (ConnectionError (u "ESP32 setup failed. See error log above.")), s)
  else (Return tt, s).

(** The f-string of [toggle_pin]; it ends with a line break. *)
Definition toggle_cmd (pin val : Z) : str :=
  u "set_pin(" ++ str_of_Z pin ++ u ", " ++ str_of_Z val ++ u ")" ++ [10].

(** [toggle_pin]: the result is the line printed on [sys.stderr], if any. *)
Definition toggle_pin (pin : Z) (state : bool) (s : Serial)
  : outcome (option str) * Serial :=
  let val : Z := if state then 1%Z else 0%Z in
  let s := ser_write [x01] s in
  let s := time_sleep 30 s in
  let s := snd (ser_read_all s) in
  let cmd := toggle_cmd pin val in
  match encode cmd with
  | None => (Raise UnicodeEncodeError, s)
  | Some payload =>
      let s := ser_write payload s in
      let s := time_sleep 20 s in
      let s := ser_write [x04] s in
      let s := time_sleep 80 s in
      let '(raw_bytes, s) := ser_read_all s in
      match raw_bytes with
      | _ :: _ =>
          let decoded := decode_replace raw_bytes in
          if contains decoded (u "Traceback") || contains decoded (u "Error")
             || contains decoded (u "NameError")
          then (Return (Some (u "ESP32 ERROR: " ++ strip decoded)), s)
          else (Return None, s)
      | [] => (Return None, s)
      end
  end.

End EspGui.

(** ** The code [ESP_INIT_CODE] puts on the board: [gpios] and [set_pin] *)

Module Remote.

(** A [machine.Pin] object made with [machine.Pin(id, machine.Pin.OUT)]. *)
Inductive Pin := PinOut (id : Z).

(** What reaches the hardware. *)
Inductive pin_event :=
  | Configure (id : Z)
  | SetValue (id : Z) (level : Z).

Record board := {
  gpios : gmap Z Pin;
  events : list pin_event
}.

(** The state after [ESP_INIT_CODE] has run: [gpios = {}]. *)
Definition fresh : board := {| gpios := ∅; events := [] |}.

Definition set_pin (pin_num : Z) (state : bool) (bd : board) : board :=
  let bd :=
    match gpios bd !! pin_num with
    | None =>
        {| gpios := <[pin_num := PinOut pin_num]> (gpios bd);
           events := events bd ++ [Configure pin_num] |}
    | Some _ => bd
    end in
  match gpios bd !! pin_num with
  | Some (PinOut id) =>
      {| gpios := gpios bd;
         events := events bd ++ [SetValue id (if state then 1 else 0)%Z] |}
  | None => bd
  end.

Definition run (calls : list (Z * bool)) (bd : board) : board :=
  foldl (fun acc c => set_pin c.1 c.2 acc) bd calls.

End Remote.

(** * Facts about the built-ins *)

Module PyFacts.
Import Py.

Lemma to_N_inj (x y : byte) : Byte.to_N x = Byte.to_N y -> x = y.
Proof.
  intros E. pose proof (Byte.of_to_N x) as Hx.
  rewrite E, Byte.of_to_N in Hx. congruence.
Qed.

Lemma byte_eqb_eq (x y : byte) : byte_eqb x y = true <-> x = y.
Proof.
  unfold byte_eqb. rewrite N.eqb_eq. split; [apply to_N_inj | congruence].
Qed.

Lemma byte_eqb_refl (x : byte) : byte_eqb x x = true.
Proof. by apply byte_eqb_eq. Qed.

Lemma bytes_eqb_eq (x y : bytes) : bytes_eqb x y = true <-> x = y.
Proof.
  revert y. induction x as [|a x IH]; intros [|c y]; simpl; try easy.
  rewrite andb_true_iff, byte_eqb_eq, IH. split.
  - intros [-> ->]; reflexivity.
  - intros [= -> ->]; split; reflexivity.
Qed.

(** [sub in x] on bytes, used to say that a stream holds the marker. *)
Fixpoint starts (x pre : bytes) {struct pre} : bool :=
  match pre, x with
  | [], _ => true
  | p :: pre', c :: x' => byte_eqb c p && starts x' pre'
  | _ :: _, [] => false
  end.

Fixpoint holds (x sub : bytes) : bool :=
  starts x sub ||
  match x with
  | [] => false
  | _ :: x' => holds x' sub
  end.

Definition has_byte (c : byte) (x : bytes) : bool := existsb (byte_eqb c) x.

Lemma starts_refl (x : bytes) : starts x x = true.
Proof. induction x; simpl; [done|]. by rewrite byte_eqb_refl. Qed.

Lemma holds_suffix (p m : bytes) : holds (p ++ m) m = true.
Proof.
  induction p as [|c p IH]; simpl.
  - destruct m; simpl; [done|]. by rewrite byte_eqb_refl, starts_refl.
  - rewrite IH. apply orb_true_r.
Qed.

Lemma endswith_holds (x m : bytes) : endswith x m = true -> holds x m = true.
Proof.
  unfold endswith. rewrite andb_true_iff, bytes_eqb_eq. intros [_ E].
  rewrite <- (take_drop (length x - length m) x), E. apply holds_suffix.
Qed.

Lemma starts_app (x y pre : bytes) :
  starts x pre = true -> starts (x ++ y) pre = true.
Proof.
  revert x. induction pre as [|p pre IH]; intros [|c x]; simpl; try easy.
  destruct (byte_eqb c p); simpl; auto.
Qed.

Lemma holds_app_l (x y m : bytes) : holds x m = true -> holds (x ++ y) m = true.
Proof.
  induction x as [|c x IH]; simpl.
  - rewrite orb_false_r. destruct m; [|done]. intros _. by destruct y.
  - rewrite !orb_true_iff. intros [H|H]; [left; by apply (starts_app (c :: x))|].
    right; auto.
Qed.

Lemma holds_byte (c d : byte) (x : bytes) :
  holds x [c; d] = true -> has_byte c x = true.
Proof.
  induction x as [|a x IH]; simpl; [done|].
  rewrite !orb_true_iff. intros [H|H]; [|right; auto].
  left. destruct x; simpl in H.
  - by rewrite andb_false_r in H.
  - apply andb_true_iff in H as [H _]. apply byte_eqb_eq in H as ->.
    apply byte_eqb_refl.
Qed.

(** *** [split] *)

Lemma split_nonempty (sep : byte) (x : bytes) : split sep x <> [].
Proof.
  induction x as [|c x IH]; simpl; [done|].
  destruct (byte_eqb c sep); [done|]. by destruct (split sep x).
Qed.

Lemma split_no_sep (sep : byte) (x : bytes) :
  has_byte sep x = false -> split sep x = [x].
Proof.
  induction x as [|c x IH]; simpl; [done|].
  rewrite orb_false_iff. intros [Hc Hx].
  assert (byte_eqb c sep = false) as ->.
  { unfold byte_eqb in *. by rewrite N.eqb_sym. }
  by rewrite (IH Hx).
Qed.

Lemma split_segment (sep : byte) (x rest : bytes) :
  has_byte sep x = false -> split sep (x ++ sep :: rest) = x :: split sep rest.
Proof.
  induction x as [|c x IH]; simpl.
  - intros _. by rewrite byte_eqb_refl.
  - rewrite orb_false_iff. intros [Hc Hx].
    assert (byte_eqb c sep = false) as ->.
    { unfold byte_eqb in *. by rewrite N.eqb_sym. }
    by rewrite (IH Hx).
Qed.

Lemma split_two (sep : byte) (x : bytes) :
  has_byte sep x = true -> (2 <= length (split sep x))%nat.
Proof.
  induction x as [|c x IH]; simpl; [done|].
  rewrite orb_true_iff. intros [Hc|Hx].
  - assert (byte_eqb c sep = true) as ->.
    { unfold byte_eqb in *. by rewrite N.eqb_sym. }
    simpl. pose proof (split_nonempty sep x). destruct (split sep x); [done|].
    simpl. lia.
  - specialize (IH Hx). destruct (byte_eqb c sep); simpl; [lia|].
    destruct (split sep x); simpl in *; lia.
Qed.

(** *** [strip] *)

Lemma lstrip_blank (s : str) : forallb isspace s = true -> lstrip s = [].
Proof.
  induction s as [|c s IH]; simpl; [done|].
  rewrite andb_true_iff. intros [-> H]. auto.
Qed.

Lemma strip_blank (s : str) : forallb isspace s = true -> strip s = [].
Proof. intros H. unfold strip. by rewrite lstrip_blank. Qed.

Lemma rstrip_nil_blank (s : str) : rstrip s = [] -> forallb isspace s = true.
Proof.
  induction s as [|c s IH]; simpl; [done|].
  destruct (rstrip s); [|done]. destruct (isspace c); [|done]. auto.
Qed.

Lemma lstrip_forallb (s : str) :
  forallb isspace (lstrip s) = true -> forallb isspace s = true.
Proof.
  induction s as [|c s IH]; simpl; [done|].
  destruct (isspace c) eqn:E; simpl; [auto|]. by rewrite E.
Qed.

Lemma strip_nil_iff (s : str) : strip s = [] <-> forallb isspace s = true.
Proof.
  split; [|apply strip_blank].
  intros H. by apply lstrip_forallb, rstrip_nil_blank.
Qed.

Lemma rstrip_cons (c : N) (s : str) :
  isspace c = false -> rstrip (c :: s) = c :: rstrip s.
Proof. intros H. simpl. rewrite H. by destruct (rstrip s). Qed.

(** *** UTF-8 of ASCII text *)

Definition ascii (s : str) : bool := forallb (fun c => c <? 0x80) s.

Lemma byte_of_to_N (c : byte) : byte_of_N (Byte.to_N c) = c.
Proof.
  unfold byte_of_N. pose proof (Byte.to_N_bounded c).
  rewrite N.mod_small by lia. by rewrite Byte.of_to_N.
Qed.

Lemma to_N_byte_of (n : N) : n < 256 -> Byte.to_N (byte_of_N n) = n.
Proof.
  intros H. unfold byte_of_N. rewrite N.mod_small by lia.
  destruct (Byte.of_N n) as [c|] eqn:E.
  - by apply Byte.to_of_N.
  - apply Byte.of_N_None_iff in E. lia.
Qed.

Lemma encode_ascii (s : str) :
  ascii s = true -> encode s = Some (List.map byte_of_N s).
Proof.
  induction s as [|c s IH]; simpl; [done|].
  rewrite andb_true_iff. intros [Hc Hs]. rewrite (IH Hs).
  unfold encode1. by rewrite Hc.
Qed.

Lemma decode_ascii (h s : str) :
  ascii s = true -> decode h (List.map byte_of_N s) = s.
Proof.
  induction s as [|c s IH]; [done|].
  intros H. apply andb_true_iff in H as [Hc Hs].
  cbn [decode List.map]. apply N.ltb_lt in Hc as Hc'.
  rewrite to_N_byte_of by lia. rewrite Hc. f_equal. by apply IH.
Qed.

Lemma ascii_app (s t : str) : ascii (s ++ t) = ascii s && ascii t.
Proof. apply forallb_app. Qed.

Lemma ascii_digits (d : Decimal.uint) : ascii (digits d) = true.
Proof. induction d; simpl; auto. Qed.

Lemma ascii_str_of_Z (z : Z) : ascii (str_of_Z z) = true.
Proof.
  destruct z as [|p|p]; unfold str_of_Z, str_of_N.
  - reflexivity.
  - apply ascii_digits.
  - exact (ascii_digits (Pos.to_uint p)).
Qed.

(** Text made of printable ASCII only. *)
Definition printable (s : str) : bool :=
  forallb (fun c => (32 <=? c) && (c <? 0x80)) s.

Lemma printable_app (s t : str) : printable (s ++ t) = printable s && printable t.
Proof. apply forallb_app. Qed.

Lemma printable_ascii (s : str) : printable s = true -> ascii s = true.
Proof.
  induction s as [|c s IH]; [done|]. unfold printable, ascii. simpl.
  rewrite !andb_true_iff. intros [[_ ?] ?]. split; [done|]. by apply IH.
Qed.

Lemma printable_no_ctrl (c : byte) (s : str) :
  Byte.to_N c < 32 -> printable s = true ->
  has_byte c (List.map byte_of_N s) = false.
Proof.
  intros Hc. induction s as [|a s IH]; [done|]. unfold printable. simpl.
  rewrite !andb_true_iff. intros [[Hlo Hhi] Hs].
  apply N.leb_le in Hlo. apply N.ltb_lt in Hhi.
  rewrite orb_false_iff. split; [|by apply IH].
  unfold byte_eqb. rewrite to_N_byte_of by lia. apply N.eqb_neq. lia.
Qed.

Lemma printable_digits (d : Decimal.uint) : printable (digits d) = true.
Proof. induction d; simpl; auto. Qed.

Lemma rstrip_snoc (s : str) (c : N) :
  isspace c = false -> rstrip (s ++ [c]) = s ++ [c].
Proof.
  intros Hc. induction s as [|a s IH]; simpl.
  - by rewrite Hc.
  - rewrite IH. by destruct (s ++ [c]) eqn:E; [destruct s|].
Qed.

Lemma endswith_app (x m : bytes) : endswith (x ++ m) m = true.
Proof.
  unfold endswith. rewrite length_app. apply andb_true_iff. split.
  - apply Nat.leb_le. lia.
  - replace (length x + length m - length m)%nat with (length x) by lia.
    rewrite drop_app_length. by apply bytes_eqb_eq.
Qed.

Lemma has_byte_app (c : byte) (x y : bytes) :
  has_byte c (x ++ y) = has_byte c x || has_byte c y.
Proof. apply existsb_app. Qed.

End PyFacts.

(** * Facts about the port and the polling loop *)

Module LoopFacts.
Import Py PyFacts ReadI2C.
Local Open Scope nat_scope.

Lemma arrivals_app (f : nat -> bytes) (t d e : nat) :
  arrivals f t (d + e) = arrivals f t d ++ arrivals f (t + d) e.
Proof.
  unfold arrivals. by rewrite seq_app, List.map_app, concat_app.
Qed.

Lemma ser_read_all_eq (s : Serial) :
  ser_read_all s =
    (in_buf s,
     {| now := now s; line := line s; in_buf := []; out_log := out_log s |}).
Proof.
  unfold ser_read_all, ser_read, ser_in_waiting.
  by rewrite firstn_all, drop_all.
Qed.

(** The line is one-shot at [t] from [t0] on: [reply] arrives during
    millisecond [t], nothing at any other time from [t0] on. *)
Definition one_shot (f : nat -> bytes) (t0 t : nat) (reply : bytes) : Prop :=
  forall t', t0 <= t' -> f t' = if Nat.eqb t' t then reply else [].

Lemma one_shot_later f t0 t1 t reply :
  t0 <= t1 -> one_shot f t0 t reply -> one_shot f t1 t reply.
Proof. intros Hle H t' Ht'. apply H. lia. Qed.

Lemma arrivals_before f t0 t reply d :
  one_shot f t0 t reply -> t0 + d <= t -> arrivals f t0 d = [].
Proof.
  revert t0. induction d as [|d IH]; intros t0 H Hle; [done|].
  change (arrivals f t0 (S d)) with (f t0 ++ arrivals f (S t0) d).
  rewrite (H t0) by lia. destruct (Nat.eqb_spec t0 t); [lia|].
  simpl. apply IH; [|lia]. eapply one_shot_later; [|done]. lia.
Qed.

Lemma arrivals_after f t0 t reply d :
  one_shot f t0 t reply -> t < t0 -> arrivals f t0 d = [].
Proof.
  revert t0. induction d as [|d IH]; intros t0 H Hlt; [done|].
  change (arrivals f t0 (S d)) with (f t0 ++ arrivals f (S t0) d).
  rewrite (H t0) by lia. destruct (Nat.eqb_spec t0 t); [lia|].
  simpl. apply IH; [|lia]. eapply one_shot_later; [|done]. lia.
Qed.

Lemma arrivals_at f t0 t reply d :
  one_shot f t0 t reply -> t0 <= t < t0 + d -> arrivals f t0 d = reply.
Proof.
  intros H [Hlo Hhi].
  replace d with ((t - t0) + (1 + (d - (t - t0) - 1))) by lia.
  rewrite !arrivals_app.
  rewrite (arrivals_before f t0 t reply) by (done || lia).
  rewrite (arrivals_after f (t0 + (t - t0) + 1) t reply); cycle 1.
  { eapply one_shot_later; [|done]. lia. }
  { lia. }
  unfold arrivals. simpl. rewrite (H (t0 + (t - t0))) by lia.
  replace (t0 + (t - t0)) with t by lia. rewrite Nat.eqb_refl.
  by rewrite !app_nil_r.
Qed.

Definition drained (s : Serial) : Serial :=
  {| now := now s; line := line s; in_buf := []; out_log := out_log s |}.

(** One round of the loop, with the read written out. *)
Lemma read_until_marker_S polls ret s :
  read_until_marker (S polls) ret s =
    match in_buf s with
    | [] => read_until_marker polls ret (time_sleep 10 s)
    | _ :: _ =>
        if endswith (ret ++ in_buf s) marker
        then Some (ret ++ in_buf s, drained s)
        else read_until_marker polls (ret ++ in_buf s)
               (time_sleep 10 (drained s))
    end.
Proof.
  cbn [read_until_marker]. unfold ser_read, ser_in_waiting, drained.
  rewrite firstn_all, drop_all. by destruct (in_buf s).
Qed.

(** What the loop leaves behind when it breaks. *)
Lemma read_until_marker_inv polls ret s ret' s' :
  read_until_marker polls ret s = Some (ret', s') ->
  endswith ret' marker = true /\ in_buf s' = [] /\
  out_log s' = out_log s /\ line s' = line s.
Proof.
  revert ret s. induction polls as [|polls IH]; intros ret s; [done|].
  rewrite read_until_marker_S. destruct (in_buf s) as [|c x] eqn:B.
  - intros H. by apply IH in H.
  - destruct (endswith (ret ++ c :: x) marker) eqn:E.
    + intros [= <- <-]. by simpl.
    + intros H. by apply IH in H.
Qed.

(** More polls do not change an answer already given. *)
Lemma read_until_marker_mono polls polls' ret s r :
  read_until_marker polls ret s = Some r -> polls <= polls' ->
  read_until_marker polls' ret s = Some r.
Proof.
  revert polls' ret s. induction polls as [|polls IH]; intros polls' ret s;
    [done|].
  intros H Hle. destruct polls' as [|polls']; [lia|].
  rewrite read_until_marker_S in *. destruct (in_buf s) as [|c x].
  - apply IH; [done|lia].
  - destruct (endswith (ret ++ c :: x) marker); [done|].
    apply IH; [done|lia].
Qed.

(** A stream that never holds the marker keeps the loop polling. *)
Lemma read_until_marker_never polls ret s :
  (forall d, holds (ret ++ in_buf s ++ arrivals (line s) (now s) d) marker
             = false) ->
  read_until_marker polls ret s = None.
Proof.
  revert ret s. induction polls as [|polls IH]; intros ret s H; [done|].
  rewrite read_until_marker_S. destruct (in_buf s) as [|c x] eqn:B.
  - apply IH. intros d. simpl. rewrite B. simpl.
    specialize (H (10 + d)). by rewrite arrivals_app in H.
  - destruct (endswith (ret ++ c :: x) marker) eqn:E.
    + apply endswith_holds in E. specialize (H 0).
      unfold arrivals in H. simpl in H. rewrite app_nil_r in H. congruence.
    + apply IH. intros d. simpl.
      specialize (H (10 + d)). rewrite arrivals_app in H.
      by rewrite <- !app_assoc.
Qed.

(** A reply that comes in one piece and ends with the marker is handed back
    as it is, as soon as a poll finds it. *)
Lemma read_until_marker_one_shot (j : nat) :
  forall s t reply,
    in_buf s = [] -> one_shot (line s) (now s) t reply ->
    now s + 10 * j <= t < now s + 10 * (j + 1) ->
    reply <> [] -> endswith reply marker = true ->
    exists s', read_until_marker (j + 2) [] s = Some (reply, s') /\
               in_buf s' = [] /\ out_log s' = out_log s.
Proof.
  induction j as [|j IH]; intros s t reply Hbuf Hline Ht Hne Hend.
  - change (0 + 2) with (S 1). rewrite read_until_marker_S, Hbuf.
    rewrite read_until_marker_S. simpl in_buf. rewrite Hbuf. simpl app.
    rewrite (arrivals_at _ _ t reply) by (done || lia).
    destruct reply as [|c reply]; [done|]. rewrite Hend.
    eexists. split; [done|]. by simpl.
  - change (S j + 2) with (S (j + 2)). rewrite read_until_marker_S, Hbuf.
    destruct (IH (time_sleep 10 s) t reply) as (s' & E & Hb & Hl); try done.
    + simpl. rewrite Hbuf. simpl.
      apply (arrivals_before _ _ t reply); [done|lia].
    + simpl. eapply one_shot_later; [|done]. lia.
    + simpl. lia.
    + exists s'. by rewrite E.
Qed.

End LoopFacts.

(** * Facts about [exec_raw] *)

Module ExecFacts.
Import Py PyFacts ReadI2C LoopFacts.
Local Open Scope nat_scope.

(** [output] of [parse_response]: the stripped text without a leading OK. *)
Definition without_ok (output : str) : str :=
  if startswith output (u "OK") then drop 2 output else output.

(** A framed reply [out 0x04 err 0x04 rest], parsed. *)
Lemma parse_response_framed (out err rest : bytes) :
  has_byte x04 out = false -> has_byte x04 err = false ->
  parse_response (out ++ x04 :: err ++ x04 :: rest) =
    match strip (decode_replace err) with
    | [] => Return (without_ok (strip (decode_replace out)))
    | c :: e => Raise (RuntimeError (u "ESP32 Error: " ++ c :: e))
    end.
Proof.
  intros Hout Herr. unfold parse_response.
  rewrite (split_segment x04 out) by done.
  rewrite (split_segment x04 err) by done.
  cbn [length Nat.leb nth].
  destruct (strip (decode_replace err)); reflexivity.
Qed.

Lemma enter_raw_eq (s : Serial) :
  enter_raw s =
    {| now := now s + 50; line := line s; in_buf := [];
       out_log := out_log s ++ [(now s, [x01])] |}.
Proof. unfold enter_raw. by rewrite ser_read_all_eq. Qed.

(** The writes of one [exec_raw], with their times. *)
Definition exec_writes (s : Serial) (payload : bytes) : list (nat * bytes) :=
  [(now s, [x01]); (now s + 50, payload ++ [x04])].

Lemma exec_raw_out_log polls code payload s r s' :
  encode code = Some payload ->
  exec_raw polls code s = Some (r, s') ->
  out_log s' = out_log s ++ exec_writes s payload.
Proof.
  intros Hc. unfold exec_raw, send_code. rewrite Hc, enter_raw_eq.
  destruct (read_until_marker _ _ _) as [[ret s1]|] eqn:E; [|done].
  intros [= <- <-]. apply read_until_marker_inv in E as (_ & _ & -> & _).
  simpl. by rewrite <- app_assoc.
Qed.

Lemma exec_raw_never polls code payload s :
  encode code = Some payload ->
  (forall d, holds (arrivals (line s) (now s + 50) d) marker = false) ->
  exec_raw polls code s = None.
Proof.
  intros Hc H. unfold exec_raw, send_code. rewrite Hc, enter_raw_eq.
  by rewrite read_until_marker_never.
Qed.

(** The reply reaches the host in one piece during millisecond [t], in the
    [j]-th poll interval after the input buffer was cleared. *)
Definition replies (s : Serial) (j t : nat) (reply : bytes) : Prop :=
  one_shot (line s) (now s + 50) t reply /\
  now s + 50 + 10 * j <= t < now s + 50 + 10 * (j + 1).

Lemma exec_raw_replies polls code payload s j t reply :
  encode code = Some payload -> replies s j t reply ->
  reply <> [] -> endswith reply marker = true -> j + 2 <= polls ->
  exists s', exec_raw polls code s = Some (parse_response reply, s') /\
             in_buf s' = [] /\
             out_log s' = out_log s ++ exec_writes s payload.
Proof.
  intros Hc [Hline Ht] Hne Hend Hp. unfold exec_raw, send_code.
  rewrite Hc, enter_raw_eq.
  set (s1 := ser_write _ _).
  destruct (read_until_marker_one_shot j s1 t reply) as (s' & E & Hb & Hl);
    try done.
  apply (read_until_marker_mono _ polls) in E; [|done].
  rewrite E. exists s'. split; [done|]. split; [done|].
  rewrite Hl. simpl. by rewrite <- app_assoc.
Qed.

(** A simulated transport: [reply] reaches the host during millisecond 55,
    nothing before and nothing after. *)
Definition sim (reply : bytes) : Serial :=
  {| now := 0; line := fun t => if Nat.eqb t 55 then reply else [];
     in_buf := []; out_log := [] |}.

Lemma sim_replies (reply : bytes) : replies (sim reply) 0 55 reply.
Proof. split; [|simpl; lia]. by intros t' _. Qed.

Lemma sim_arrivals (reply : bytes) (d : nat) :
  arrivals (line (sim reply)) 50 d = if d <=? 5 then [] else reply.
Proof.
  pose proof (sim_replies reply) as [H _]. simpl in H.
  destruct (Nat.leb_spec d 5).
  - apply (arrivals_before _ _ 55 reply); [done|lia].
  - apply (arrivals_at _ _ 55 reply); [done|lia].
Qed.

End ExecFacts.

(** * Facts about [eval] on a printed list *)

Module EvalFacts.
Import Py PyFacts.

(** After the first item: [", "] and the next item, again and again. *)
Definition more_items (l : list N) : str :=
  concat (List.map (fun n => u ", " ++ str_of_N n) l).

Lemma join_items (n : N) (l : list N) :
  join (u ", ") (List.map str_of_N (n :: l)) = str_of_N n ++ more_items l.
Proof.
  revert n. induction l as [|m l IH]; intros n.
  - simpl. by rewrite app_nil_r.
  - change (List.map str_of_N (n :: m :: l))
      with (str_of_N n :: List.map str_of_N (m :: l)).
    cbn [join]. rewrite IH. cbn [List.map more_items concat].
    by rewrite <- !app_assoc.
Qed.

(** Reading on through the digits of a number. *)
Lemma eval_display_digits (d acc : Decimal.uint) (items : list N) (rest : str) :
  eval_display (LNum acc) items (digits d ++ rest) =
  eval_display (LNum (Decimal.revapp d acc)) items rest.
Proof.
  revert acc. induction d; intros acc; [done|..]; simpl; apply IHd.
Qed.

Lemma eval_display_first_digit (st : lit_state) (d : Decimal.uint)
      (items : list N) (rest : str) :
  st = LOpen \/ st = LComma -> d <> Decimal.Nil ->
  eval_display st items (digits d ++ rest) =
  eval_display (LNum (Decimal.rev d)) items rest.
Proof.
  intros Hst Hd. unfold Decimal.rev.
  destruct d; [done|..]; destruct Hst as [-> | ->]; simpl;
    apply eval_display_digits.
Qed.

Lemma to_uint_canonical (n : N) : Decimal.unorm (N.to_uint n) = N.to_uint n.
Proof. by rewrite <- Unsigned.to_of, Unsigned.of_to. Qed.

Lemma to_uint_nonnil (n : N) : N.to_uint n <> Decimal.Nil.
Proof. rewrite <- to_uint_canonical. apply unorm_nonnil. Qed.

Lemma finish_literal_to_uint (n : N) :
  finish_literal (Decimal.rev (N.to_uint n)) = Some n.
Proof.
  unfold finish_literal. rewrite rev_rev, to_uint_canonical.
  rewrite (Decimal.internal_uint_dec_lb _ _ eq_refl).
  by rewrite Unsigned.of_to.
Qed.

Lemma eval_display_more (l : list N) :
  forall (items : list N) (n : N),
    eval_display (LNum (Decimal.rev (N.to_uint n))) items
      (more_items l ++ u "]")
    = Some (List.rev items ++ n :: l).
Proof.
  induction l as [|m l IH]; intros items n.
  - cbn [more_items List.map concat app]. change (u "]") with [93].
    cbn [eval_display]. change (push_digit 93 _) with (@None Decimal.uint).
    cbv iota. rewrite finish_literal_to_uint. by cbn.
  - cbn [more_items List.map concat]. rewrite <- !app_assoc.
    change (u ", " ++ ?x) with (44 :: 32 :: x).
    cbn [eval_display]. change (push_digit 44 _) with (@None Decimal.uint).
    cbv iota. rewrite finish_literal_to_uint.
    change (is_blank 44) with false. change (44 =? 44) with true.
    change (is_blank 32) with true. cbv iota.
    unfold str_of_N at 1.
    rewrite (eval_display_first_digit LComma) by (auto using to_uint_nonnil).
    fold (more_items l). rewrite IH. cbn [List.rev]. by rewrite <- app_assoc.
Qed.

(** [eval] gives back the list whose [repr] it is given. *)
Lemma eval_repr_list (l : list N) : eval (repr_list l) = EvalList l.
Proof.
  destruct l as [|n l]; [done|].
  unfold eval, repr_list. rewrite join_items, <- app_assoc.
  change (u "[" ++ ?x) with (91 :: x). cbn [eval_display].
  change (91 =? 91) with true. cbv iota.
  unfold str_of_N at 1.
  rewrite (eval_display_first_digit LOpen) by (auto using to_uint_nonnil).
  by rewrite eval_display_more.
Qed.

Lemma printable_more_items (l : list N) : printable (more_items l) = true.
Proof.
  induction l as [|n l IH]; [done|].
  cbn [more_items List.map concat]. fold (more_items l).
  rewrite !printable_app, IH. unfold str_of_N. by rewrite printable_digits.
Qed.

Lemma printable_repr_list (l : list N) : printable (repr_list l) = true.
Proof.
  destruct l as [|n l]; [done|].
  unfold repr_list. rewrite join_items, !printable_app, printable_more_items.
  unfold str_of_N. by rewrite printable_digits.
Qed.

Lemma repr_list_closed (l : list N) : exists body, repr_list l = body ++ [93%N].
Proof.
  unfold repr_list. exists (u "[" ++ join (u ", ") (List.map str_of_N l)).
  by rewrite <- app_assoc.
Qed.

End EvalFacts.

(** * Facts about the injected [set_pin] *)

Module RemoteFacts.
Import Remote.
Local Open Scope nat_scope.

#[global] Instance pin_event_eq_dec : EqDecision pin_event.
Proof. solve_decision. Defined.

Definition level (state : bool) : Z := if state then 1%Z else 0%Z.

(** How often [pin] was configured as an output. *)
Definition configured (pin : Z) (evs : list pin_event) : nat :=
  length (filter (eq (Configure pin)) evs).

(** Every cached object is the pin it is filed under. *)
Definition cache_ok (bd : board) : Prop :=
  forall k p, gpios bd !! k = Some p -> p = PinOut k.

(** One call: the cache entry is there afterwards, and the hardware sees the
    configuration only when the entry was missing. *)
Lemma set_pin_step (pin : Z) (state : bool) (bd : board) :
  cache_ok bd ->
  gpios (set_pin pin state bd) = <[pin := PinOut pin]> (gpios bd) /\
  events (set_pin pin state bd) =
    events bd
    ++ (match gpios bd !! pin with None => [Configure pin] | Some _ => [] end)
    ++ [SetValue pin (level state)].
Proof.
  intros Hok. unfold set_pin. destruct (gpios bd !! pin) as [p|] eqn:E.
  - rewrite E. pose proof (Hok _ _ E) as ->. simpl. split; [|done].
    symmetry. by apply insert_id.
  - simpl. rewrite lookup_insert_eq. simpl. split; [done|].
    by rewrite <- app_assoc.
Qed.

Lemma run_snoc (calls : list (Z * bool)) (pin : Z) (state : bool) (bd : board) :
  run (calls ++ [(pin, state)]) bd = set_pin pin state (run calls bd).
Proof. unfold run. by rewrite foldl_app. Qed.

(** The state of the board after any calls, starting from [fresh]. *)
Record reached (calls : list (Z * bool)) (bd : board) : Prop := {
  reached_cache : cache_ok bd;
  reached_dom : forall k, is_Some (gpios bd !! k) <-> k ∈ calls.*1;
  reached_count : forall k,
    configured k (events bd) = if bool_decide (k ∈ calls.*1) then 1 else 0;
  reached_order : forall k before lv after,
    events bd = before ++ SetValue k lv :: after -> Configure k ∈ before
}.

Lemma configured_app (k : Z) (x y : list pin_event) :
  configured k (x ++ y) = configured k x + configured k y.
Proof. unfold configured. by rewrite filter_app, length_app. Qed.

Lemma configured_value (k id : Z) (lv : Z) : configured k [SetValue id lv] = 0.
Proof. unfold configured. rewrite filter_cons. by case_decide. Qed.

Lemma configured_same (k : Z) : configured k [Configure k] = 1.
Proof. unfold configured. rewrite filter_cons. by case_decide. Qed.

Lemma configured_other (k id : Z) : k <> id -> configured k [Configure id] = 0.
Proof.
  intros Hne. unfold configured. rewrite filter_cons.
  case_decide; [congruence|done].
Qed.

Lemma configured_pos (k : Z) (evs : list pin_event) :
  0 < configured k evs -> Configure k ∈ evs.
Proof.
  unfold configured. intros H.
  destruct (filter (eq (Configure k)) evs) as [|e l] eqn:F; [simpl in H; lia|].
  assert (e ∈ filter (eq (Configure k)) evs) as Hin by (rewrite F; left).
  by apply list_elem_of_filter in Hin as [<- Hin].
Qed.

Lemma reached_run (calls : list (Z * bool)) : reached calls (run calls fresh).
Proof.
  induction calls as [|[pin state] calls IH] using rev_ind.
  - split; unfold run, fresh, cache_ok; cbn [foldl gpios events fmap list_fmap].
    + intros k p. by rewrite lookup_empty.
    + intros k. rewrite lookup_empty. split; [by intros [? ?]|].
      by intros ?%elem_of_nil.
    + intros k. rewrite bool_decide_eq_false_2; [done|]. by intros ?%elem_of_nil.
    + intros k before lv after H. by destruct before.
  - rewrite run_snoc. destruct IH as [Hok Hdom Hcnt Hord].
    destruct (set_pin_step pin state _ Hok) as [Hg He].
    set (bd := run calls fresh) in *.
    split.
    + intros k p. rewrite Hg. destruct (decide (k = pin)) as [->|Hne].
      * rewrite lookup_insert_eq. congruence.
      * rewrite lookup_insert_ne by done. apply Hok.
    + intros k. rewrite Hg, fmap_app, elem_of_app. simpl.
      rewrite list_elem_of_singleton. destruct (decide (k = pin)) as [->|Hne].
      * rewrite lookup_insert_eq. split; [auto|]. by eexists.
      * rewrite lookup_insert_ne by done. rewrite Hdom.
        split; [auto|]. by intros [?|?].
    + intros k. rewrite He, !configured_app, Hcnt, configured_value.
      rewrite fmap_app. simpl.
      destruct (decide (k = pin)) as [->|Hne].
      * rewrite (bool_decide_eq_true_2 (pin ∈ calls.*1 ++ [pin]))
          by (rewrite elem_of_app, list_elem_of_singleton; auto).
        destruct (gpios bd !! pin) as [p|] eqn:E.
        -- rewrite bool_decide_eq_true_2 by (apply Hdom; eauto).
           change (configured pin []) with 0. lia.
        -- rewrite bool_decide_eq_false_2.
           2:{ intros Hin. apply Hdom in Hin as [? ?]. congruence. }
           rewrite configured_same. lia.
      * assert (bool_decide (k ∈ calls.*1 ++ [pin]) = bool_decide (k ∈ calls.*1))
          as ->.
        { apply bool_decide_ext. rewrite elem_of_app, list_elem_of_singleton.
          split; [by intros [?|?] | auto]. }
        destruct (gpios bd !! pin).
        -- change (configured k []) with 0. lia.
        -- rewrite configured_other by done. lia.
    + intros k before lv after H. rewrite He in H.
      rewrite app_assoc in H.
      destruct after as [|last after' _] using rev_ind.
      * apply (app_inj_tail _ before) in H as [H [= <- _]]. subst before.
        rewrite elem_of_app. destruct (gpios bd !! pin) as [p|] eqn:E.
        -- left. apply configured_pos.
           rewrite Hcnt, bool_decide_eq_true_2; [lia|]. apply Hdom. eauto.
        -- right. left.
      * rewrite app_comm_cons, app_assoc in H.
        apply app_inj_tail in H as [H _].
        destruct (gpios bd !! pin) as [p|] eqn:E.
        -- rewrite app_nil_r in H. by eapply Hord.
        -- destruct after' as [|l2 a2 _] using rev_ind.
           ++ by apply (app_inj_tail _ before) in H as [_ ?].
           ++ rewrite app_comm_cons, app_assoc in H.
              apply app_inj_tail in H as [H _]. by eapply Hord.
Qed.

End RemoteFacts.

(** * Facts about [ESP32Controller] *)

Module EspGuiFacts.
Import Py PyFacts EspGui LoopFacts.
Local Open Scope nat_scope.

Lemma ascii_toggle_cmd (pin val : Z) : ascii (toggle_cmd pin val) = true.
Proof.
  unfold toggle_cmd. rewrite !ascii_app, !ascii_str_of_Z. reflexivity.
Qed.

(** The bytes [toggle_pin] sends for the command: they end with 0x0a. *)
Definition toggle_payload (pin : Z) (state : bool) : bytes :=
  List.map byte_of_N (toggle_cmd pin (if state then 1 else 0)%Z).

Lemma toggle_payload_newline (pin : Z) (state : bool) :
  exists line, toggle_payload pin state = line ++ [x0a].
Proof.
  unfold toggle_payload, toggle_cmd. rewrite !app_assoc, List.map_app.
  by eexists.
Qed.

Lemma toggle_pin_out_log (pin : Z) (state : bool) (s : Serial) :
  out_log (snd (toggle_pin pin state s)) =
    out_log s ++ [(now s, [x01]); (now s + 30, toggle_payload pin state);
                  (now s + 30 + 20, [x04])].
Proof.
  unfold toggle_pin. rewrite (encode_ascii _ (ascii_toggle_cmd _ _)).
  rewrite !ser_read_all_eq. cbn [snd].
  set (raw := in_buf _).
  assert (forall (r : outcome (option str)) (t : Serial),
            out_log (snd (r, t)) = out_log t) as Hsnd by done.
  destruct raw; [|destruct (_ || _)]; rewrite Hsnd; simpl;
    by rewrite <- !app_assoc.
Qed.

Lemma controller_init_out_log (s : Serial) :
  out_log (snd (controller_init s)) =
    out_log s ++ [(now s, [x03]); (now s + 50, [x01]);
                  (now s + 50 + 50, strip_bytes ESP_INIT_CODE ++ nl);
                  (now s + 50 + 50 + 20, [x04])].
Proof.
  unfold controller_init. rewrite !ser_read_all_eq. cbn [snd].
  destruct (_ || _); simpl; by rewrite <- !app_assoc.
Qed.

End EspGuiFacts.

(** * The driver's properties *)

Module Driver.
Import Py PyFacts ReadI2C LoopFacts ExecFacts.
Local Open Scope nat_scope.

(** ** The read loop and its deadline *)

(** C1, as the specification has it, fails: on a line that stays silent
    [exec_raw] gives no answer after any number of polls, so no failure of
    any kind is reported within a time budget. *)
Lemma exec_raw_silent_line_blocks :
  ~ exists polls r, exec_raw polls (u "print(1)") (sim []) = Some r.
Proof.
  intros (polls & r & H).
  rewrite (exec_raw_never polls _ (b "print(1)")) in H; [done|done|].
  intros d. change (now (sim []) + 50) with 50. rewrite sim_arrivals.
  by destruct (d <=? 5).
Qed.

(** C1, amended: the read loop of [exec_raw] has no deadline.  When the bytes
    that reach the host after the input buffer was cleared never hold the
    marker 0x04 '>', [exec_raw] is still polling after any number of 10 ms
    rounds: it reports no timeout and hands back no partial bytes. *)
Theorem exec_raw_has_no_deadline (polls : nat) (code : str) (payload : bytes)
        (s : Serial) :
  encode code = Some payload ->
  (forall d, holds (arrivals (line s) (now s + 50) d) marker = false) ->
  exec_raw polls code s = None.
Proof. apply exec_raw_never. Qed.

Lemma exec_raw_has_no_deadline_witness :
  exec_raw 1000 (u "print(1)") (sim (b "partial output")) = None.
Proof.
  apply (exec_raw_has_no_deadline 1000 _ (b "print(1)")); [reflexivity|].
  intros d. change (now (sim (b "partial output")) + 50) with 50.
  rewrite sim_arrivals. destruct (d <=? 5); reflexivity.
Defined.

(** ** Replies without a frame *)

(** C2, as the specification has it, fails: a reply without any 0x04 is
    parsed to the empty string, an ordinary result, and [exec_raw] as a whole
    gives no answer at all on such a reply. *)
Lemma unframed_reply_counterexample :
  parse_response (b "hello") = Return [] /\
  ~ exists polls r, exec_raw polls (u "print(1)") (sim (b "hello")) = Some r.
Proof.
  split; [reflexivity|]. intros (polls & r & H).
  rewrite (exec_raw_never polls _ (b "print(1)")) in H; [done|done|].
  intros d. change (now (sim (b "hello")) + 50) with 50. rewrite sim_arrivals.
  by destruct (d <=? 5).
Qed.

(** C2, amended: when the accumulated response holds no 0x04 byte (the only
    way the split yields fewer than 2 segments), the parsing step of
    [exec_raw] returns the empty string as an ordinary result, with no
    failure and no raw bytes; and the read loop never hands such a response
    to the parsing step, since it only stops on a buffer that ends with
    0x04 '>'. *)
Theorem parse_response_unframed (ret : bytes) :
  has_byte x04 ret = false ->
  length (split x04 ret) < 2 /\
  parse_response ret = Return [] /\
  forall polls ret0 s s', read_until_marker polls ret0 s <> Some (ret, s').
Proof.
  intros H. unfold parse_response. rewrite (split_no_sep _ _ H).
  split; [simpl; lia|]. split; [done|].
  intros polls ret0 s s' E. apply read_until_marker_inv in E as [E _].
  apply endswith_holds, holds_byte in E. congruence.
Qed.

Lemma parse_response_unframed_witness :
  parse_response (b "hello") = Return [].
Proof.
  apply (parse_response_unframed (b "hello")). reflexivity.
Defined.

(** ** The error channel *)

(** C3, as the specification has it, fails: the second segment of this reply
    is not empty (one blank), yet the call succeeds. *)
Lemma blank_stderr_counterexample :
  nth 1 (split x04 (b "OK" ++ [x04] ++ b " " ++ [x04] ++ b ">")) [] = b " " /\
  exists s', exec_raw 2 (u "print(1)")
               (sim (b "OK" ++ [x04] ++ b " " ++ [x04] ++ b ">"))
             = Some (Return [], s').
Proof. split; [reflexivity|]. eexists. reflexivity. Qed.

(** C3, amended: [exec_raw] raises its [RuntimeError] if and only if the
    second 0x04-delimited segment, decoded and stripped of white space at
    both ends, is non-empty; when the stripped segment is empty the call
    succeeds and returns the stdout text. *)
Theorem parse_response_error_iff (out err rest : bytes) :
  has_byte x04 out = false -> has_byte x04 err = false ->
  ((exists msg, parse_response (out ++ x04 :: err ++ x04 :: rest)
                = Raise (RuntimeError msg))
   <-> strip (decode_replace err) <> []) /\
  (strip (decode_replace err) = [] ->
   parse_response (out ++ x04 :: err ++ x04 :: rest)
   = Return (without_ok (strip (decode_replace out)))).
Proof.
  intros Hout Herr. rewrite (parse_response_framed _ _ _ Hout Herr).
  destruct (strip (decode_replace err)) as [|c e].
  - split; [|done]. split; [by intros [msg ?]|done].
  - split; [|done]. split; [done|]. intros _. by eexists.
Qed.

Lemma parse_response_error_iff_witness :
  (exists msg, parse_response (b "OK" ++ x04 :: b "NameError: x" ++ x04 :: b ">")
               = Raise (RuntimeError msg)).
Proof.
  apply (parse_response_error_iff (b "OK") (b "NameError: x") (b ">"));
    [reflexivity | reflexivity | discriminate].
Defined.

(** ** Submitting the code *)

(** C4, as the specification has it, fails for [exec_raw]: the code and the
    byte 0x04 leave in one write, and no line break comes in between. *)
Lemma exec_raw_single_write_counterexample :
  exists r s', exec_raw 2 (u "x") (sim (b "OK" ++ [x04; x04] ++ b ">"))
               = Some (r, s') /\
               out_log s' = [(0, [x01]); (50, b "x" ++ [x04])].
Proof. do 2 eexists. split; reflexivity. Qed.

(** C4, amended: [ESPI2C.exec_raw] writes the UTF-8 bytes of the code and the
    byte 0x04 in one single write, 50 ms after its Ctrl+A, with no line break
    and no delay between code and 0x04.  It is [ESP32Controller] (its
    constructor and [toggle_pin]) that writes the code followed by a line
    break and then, 20 ms later and in a write of its own, the byte 0x04. *)
Theorem code_submission_writes (code : str) (payload : bytes) (pin : Z)
        (state : bool) (s : Serial) :
  encode code = Some payload ->
  (exists s1, send_code code (enter_raw s) = Some s1 /\
     out_log s1 = out_log s ++ [(now s, [x01]); (now s + 50, payload ++ [x04])] /\
     forall polls r s', exec_raw polls code s = Some (r, s') ->
                        out_log s' = out_log s1) /\
  (exists cmd,
     out_log (snd (EspGui.toggle_pin pin state s)) =
       out_log s ++ [(now s, [x01]); (now s + 30, cmd ++ [x0a]);
                     (now s + 30 + 20, [x04])]) /\
  out_log (snd (EspGui.controller_init s)) =
    out_log s ++ [(now s, [x03]); (now s + 50, [x01]);
                  (now s + 50 + 50,
                   strip_bytes EspGui.ESP_INIT_CODE ++ [x0a]);
                  (now s + 50 + 50 + 20, [x04])].
Proof.
  intros Hc. split; [|split].
  - unfold send_code. rewrite Hc, enter_raw_eq. eexists. split; [done|].
    split; [simpl; by rewrite <- app_assoc|].
    intros polls r s' H. rewrite (exec_raw_out_log _ _ _ _ _ _ Hc H).
    simpl. by rewrite <- app_assoc.
  - destruct (EspGuiFacts.toggle_payload_newline pin state) as [cmd E].
    exists cmd. by rewrite EspGuiFacts.toggle_pin_out_log, E.
  - apply EspGuiFacts.controller_init_out_log.
Qed.

Lemma code_submission_writes_witness :
  exists s1, send_code (u "x") (enter_raw (sim [])) = Some s1 /\
             out_log s1 = [(0, [x01]); (50, b "x" ++ [x04])].
Proof.
  destruct (code_submission_writes (u "x") (b "x") 48%Z true (sim []) eq_refl)
    as [(s1 & E & Hlog & _) _].
  exists s1. split; [exact E | exact Hlog].
Defined.

(** ** What comes back as stdout *)

Lemma parse_response_ok_body (body err rest : bytes) :
  has_byte x04 body = false -> has_byte x04 err = false ->
  strip (decode_replace err) = [] ->
  parse_response (b "OK" ++ body ++ x04 :: err ++ x04 :: rest)
  = Return (rstrip (decode_replace body)).
Proof.
  intros Hbody Herr Hblank.
  rewrite (app_assoc (b "OK") body).
  rewrite parse_response_framed; [|by rewrite has_byte_app, Hbody|done].
  rewrite Hblank. f_equal.
  change (decode_replace (b "OK" ++ body))
    with (79%N :: 75%N :: decode_replace body).
  unfold strip. change (lstrip (79%N :: ?t)) with (79%N :: t).
  by rewrite !rstrip_cons.
Qed.

(** C5, as the specification has it, fails: the interpreter printed "hi" and
    a line end, and the text that comes back is "hi" alone. *)
Lemma stdout_line_end_counterexample :
  (exists s', exec_raw 2 (u "print('hi')")
                (sim (b "OK" ++ (b "hi" ++ [x0d; x0a]) ++ [x04; x04] ++ b ">"))
              = Some (Return (u "hi"), s')) /\
  u "hi" <> decode_replace (b "hi" ++ [x0d; x0a]).
Proof. split; [eexists; reflexivity | discriminate]. Qed.

(** C5, amended: when the stderr segment is blank, [exec_raw] returns one
    text, the stdout: what the interpreter printed after the leading "OK",
    decoded as UTF-8 with U+FFFD in place of ill-formed bytes, and with the
    white space at its end removed; nothing else is added or removed. *)
Theorem parse_response_stdout (body err rest : bytes) :
  has_byte x04 body = false -> has_byte x04 err = false ->
  strip (decode_replace err) = [] ->
  parse_response (b "OK" ++ body ++ x04 :: err ++ x04 :: rest)
  = Return (rstrip (decode_replace body)).
Proof. apply parse_response_ok_body. Qed.

Lemma parse_response_stdout_witness :
  parse_response (b "OK" ++ (b "  hi" ++ [x0d; x0a]) ++ x04 :: [] ++ x04 :: b ">")
  = Return (u "  hi").
Proof.
  apply (parse_response_stdout (b "  hi" ++ [x0d; x0a]) [] (b ">"));
    reflexivity.
Defined.

(** ** Scanning the bus *)

(** The reply of a board that printed the list [l] and raised nothing. *)
Definition scan_reply (l : list N) : bytes :=
  b "OK" ++ List.map byte_of_N (repr_list l) ++ [x04; x04] ++ b ">".

(** C6: on a transport that replies with the printed list, in one piece and
    at any time after the input buffer was cleared, [scan] returns the list
    of addresses; for the list [8, 52] the reply is OK[8, 52] 0x04 0x04 >. *)
Theorem scan_round_trip (l : list N) (s : Serial) (j t polls : nat) :
  replies s j t (scan_reply l) -> j + 2 <= polls ->
  exists s', scan polls s = Some (Addresses l, [u "Scanning I2C bus..."], s').
Proof.
  intros Hrep Hpolls. unfold scan.
  destruct (exec_raw_replies polls (u "print(i2c.scan())")
              (b "print(i2c.scan())") s j t (scan_reply l))
    as (s' & -> & _); [reflexivity | exact Hrep | discriminate | | exact Hpolls |].
  { unfold scan_reply.
    change ([x04; x04] ++ b ">") with ([x04] ++ marker).
    rewrite !app_assoc. apply endswith_app. }
  unfold scan_reply.
  change ([x04; x04] ++ b ">") with (x04 :: [] ++ x04 :: b ">").
  rewrite parse_response_ok_body; try done.
  2:{ apply printable_no_ctrl; [done|]. apply EvalFacts.printable_repr_list. }
  unfold decode_replace. rewrite decode_ascii
    by (apply printable_ascii, EvalFacts.printable_repr_list).
  destruct (EvalFacts.repr_list_closed l) as [body E].
  rewrite E, rstrip_snoc by done. rewrite <- E.
  rewrite EvalFacts.eval_repr_list.
  destruct (repr_list l) eqn:R; [by destruct l|]. by eexists.
Qed.

Lemma scan_round_trip_witness :
  exists s', scan 2 (sim (b "OK[8, 52]" ++ [x04; x04] ++ b ">"))
             = Some (Addresses [8%N; 52%N], [u "Scanning I2C bus..."], s').
Proof.
  apply (scan_round_trip [8%N; 52%N]
           (sim (b "OK[8, 52]" ++ [x04; x04] ++ b ">")) 0 55 2).
  - apply (sim_replies (scan_reply [8%N; 52%N])).
  - lia.
Defined.

(** What [scan] prints besides its opening line. *)
Definition scan_failed (err : bytes) : list str :=
  match strip (decode_replace err) with
  | [] => []
  | c :: e => [u "Scan failed: ESP32 Error: " ++ c :: e]
  end.

(** C7, as the specification has it, fails: the empty text is no sequence of
    integers, and neither is a traceback, yet [scan] returns the empty
    sequence for both as an ordinary result. *)
Lemma scan_unparsable_counterexample :
  eval [] = EvalOutside /\
  (exists printed s', scan 2 (sim (b "OK" ++ [x04; x04] ++ b ">"))
                      = Some (Addresses [], printed, s')) /\
  (exists printed s',
     scan 2 (sim (b "OK" ++ [x04] ++ b "Traceback (most recent call last):"
                  ++ [x04] ++ b ">"))
     = Some (Addresses [], printed, s')).
Proof. split; [reflexivity|]. split; do 2 eexists; reflexivity. Qed.

(** C7, amended: [scan] has no failure result.  When the board reports an
    error (a stderr segment that is not blank) it prints "Scan failed: ..."
    and returns the empty sequence, and when the response text is empty it
    returns the empty sequence as well; so the empty sequence is returned not
    only when the board reports zero devices. *)
Theorem scan_has_no_failure (out err : bytes) (s : Serial) (j t polls : nat) :
  has_byte x04 out = false -> has_byte x04 err = false ->
  replies s j t (out ++ x04 :: err ++ x04 :: b ">") -> j + 2 <= polls ->
  strip (decode_replace err) <> []
  \/ without_ok (strip (decode_replace out)) = [] ->
  exists s', scan polls s
             = Some (Addresses [],
                     [u "Scanning I2C bus..."] ++ scan_failed err, s').
Proof.
  intros Hout Herr Hrep Hpolls Hcase. unfold scan.
  destruct (exec_raw_replies polls (u "print(i2c.scan())")
              (b "print(i2c.scan())") s j t _ eq_refl Hrep)
    as (s' & -> & _); [by destruct out | | exact Hpolls |].
  { change (out ++ x04 :: err ++ x04 :: b ">")
      with (out ++ (x04 :: err) ++ marker).
    rewrite app_assoc. apply endswith_app. }
  rewrite (parse_response_framed _ _ _ Hout Herr). unfold scan_failed.
  destruct (strip (decode_replace err)) as [|c e].
  - destruct Hcase as [? | ->]; [done|]. by eexists.
  - by eexists.
Qed.

Lemma scan_has_no_failure_witness :
  exists s',
    scan 2 (sim (b "OK" ++ x04 :: b "NameError: i2c" ++ x04 :: b ">"))
    = Some (Addresses [],
            [u "Scanning I2C bus..."; u "Scan failed: ESP32 Error: NameError: i2c"],
            s').
Proof.
  apply (scan_has_no_failure (b "OK") (b "NameError: i2c")
           (sim (b "OK" ++ x04 :: b "NameError: i2c" ++ x04 :: b ">")) 0 55 2).
  - reflexivity.
  - reflexivity.
  - apply sim_replies.
  - lia.
  - left. discriminate.
Defined.

(** ** Entering raw mode *)

Lemma not_interrupt (payload : bytes) : [x03] <> payload ++ [x04].
Proof.
  intros E. destruct payload as [|c [|d payload]]; try discriminate.
Qed.

Lemma written_app (s : Serial) (log : list (nat * bytes)) (s' : Serial) :
  out_log s' = out_log s ++ log -> written s' = written s ++ List.map snd log.
Proof. unfold written. intros ->. by rewrite List.map_app. Qed.

(** C8, as the specification has it, fails: before the code, [exec_raw]
    writes Ctrl+A only; the interrupt byte 0x03 of the mode-entry sequence is
    not written again. *)
Lemma exec_raw_no_interrupt_counterexample :
  exists r s', exec_raw 2 (u "print(1)") (sim (b "OK" ++ [x04; x04] ++ b ">"))
               = Some (r, s') /\
               written s' = [[x01]; b "print(1)" ++ [x04]] /\
               ~ In [x03] (written s').
Proof.
  do 2 eexists. split; [reflexivity|]. split; [reflexivity|].
  simpl. intros [H|[H|[]]]; discriminate.
Qed.

(** C8, amended: entering raw mode the way [exec_raw] does (write 0x01, wait
    50 ms, clear the input buffer) leaves the port with an empty input
    buffer whatever came before, so doing it twice in a row leaves the same
    observable state as doing it once.  [exec_raw] does this before every
    code submission, and there is no mode flag it could trust instead; what
    it replays is the mode switch only: the interrupt byte 0x03 is written
    by [connect_and_init], once, and by no [exec_raw]. *)
Theorem enter_raw_idempotent (s : Serial) :
  in_buf (enter_raw s) = [] /\
  in_buf (enter_raw (enter_raw s)) = in_buf (enter_raw s) /\
  line (enter_raw (enter_raw s)) = line (enter_raw s) /\
  written (enter_raw s) = written s ++ [[x01]] /\
  (forall polls code r s', exec_raw polls code s = Some (r, s') ->
     exists more, written s' = written s ++ [x01] :: more /\ ~ In [x03] more) /\
  (forall polls r s', connect_and_init polls s = Some (r, s') ->
     exists more, written s' = written s ++ [x03] :: [x01] :: [x01] :: more
                  /\ ~ In [x03] more).
Proof.
  rewrite !enter_raw_eq. cbn [in_buf line].
  split; [done|]. split; [done|]. split; [done|].
  split; [unfold written; simpl; by rewrite List.map_app|].
  assert (forall polls code s0 r s', exec_raw polls code s0 = Some (r, s') ->
            exists more, written s' = written s0 ++ [x01] :: more
                         /\ ~ In [x03] more) as Hexec.
  { intros polls code s0 r s' H. destruct (encode code) as [payload|] eqn:Hc.
    - exists [payload ++ [x04]].
      split; [exact (written_app _ _ _ (exec_raw_out_log _ _ _ _ _ _ Hc H))|].
      intros [E|[]]. symmetry in E. by apply not_interrupt in E.
    - unfold exec_raw, send_code in H. rewrite Hc, enter_raw_eq in H.
      injection H as _ <-. exists []. split; [|by intros []].
      unfold written. simpl. by rewrite List.map_app. }
  split; [intros polls code r s'; apply Hexec|].
  intros polls r s'. unfold connect_and_init. rewrite ser_read_all_eq.
  cbn [snd].
  destruct (exec_raw polls init_code _) as [[r0 s0]|] eqn:E; [|done].
  apply Hexec in E as (more & Hw & Hno). exists more.
  split; [|done].
  assert (written s' = written s0) as -> by (destruct r0; congruence).
  rewrite Hw. unfold written. simpl. rewrite !List.map_app. simpl.
  by rewrite <- !app_assoc.
Qed.

Lemma enter_raw_idempotent_witness :
  in_buf (enter_raw (enter_raw (sim (b "raw REPL; CTRL-B to exit"))))
  = in_buf (enter_raw (sim (b "raw REPL; CTRL-B to exit"))).
Proof.
  apply (enter_raw_idempotent (sim (b "raw REPL; CTRL-B to exit"))).
Defined.

(** ** White space on the error channel *)

(** C10: both segments are stripped of white space before they are looked
    at, so a stderr segment of white space only (a line end, say) counts as
    empty: the call succeeds with the same result as for an empty stderr
    segment. *)
Theorem blank_stderr_is_success (out err rest : bytes) :
  has_byte x04 out = false -> has_byte x04 err = false ->
  forallb isspace (decode_replace err) = true ->
  parse_response (out ++ x04 :: err ++ x04 :: rest)
  = Return (without_ok (strip (decode_replace out))) /\
  parse_response (out ++ x04 :: err ++ x04 :: rest)
  = parse_response (out ++ x04 :: [] ++ x04 :: rest).
Proof.
  intros Hout Herr Hblank.
  rewrite !parse_response_framed by done.
  by rewrite (strip_blank _ Hblank).
Qed.

Lemma blank_stderr_is_success_witness :
  parse_response (b "OK42" ++ x04 :: [x0d; x0a] ++ x04 :: b ">")
  = Return (u "42").
Proof.
  apply (blank_stderr_is_success (b "OK42") [x0d; x0a] (b ">")); reflexivity.
Defined.

End Driver.

(** * The pin cache on the board *)

Module Board.
Import Remote RemoteFacts.
Local Open Scope nat_scope.

(** C9: whatever calls of [set_pin] were made since [ESP_INIT_CODE] ran, a
    pin is configured as an output at most once; each write of its value
    comes after that configuration; and a further call configures the pin
    exactly when no earlier call touched it, and otherwise only writes the
    value. *)
Theorem set_pin_configures_once (calls : list (Z * bool)) (pin : Z) :
  configured pin (events (run calls fresh)) <= 1 /\
  (forall before lv after,
     events (run calls fresh) = before ++ SetValue pin lv :: after ->
     Configure pin ∈ before) /\
  (forall state,
     events (run (calls ++ [(pin, state)]) fresh) =
       events (run calls fresh)
       ++ (if bool_decide (pin ∈ calls.*1) then [] else [Configure pin])
       ++ [SetValue pin (level state)]).
Proof.
  destruct (reached_run calls) as [Hok Hdom Hcnt Hord].
  split; [rewrite Hcnt; case_bool_decide; lia|].
  split; [apply Hord|].
  intros state. rewrite run_snoc.
  destruct (set_pin_step pin state _ Hok) as [_ ->].
  destruct (gpios (run calls fresh) !! pin) as [p|] eqn:E.
  - rewrite bool_decide_eq_true_2; [done|]. apply Hdom. eauto.
  - rewrite bool_decide_eq_false_2; [done|].
    intros Hin. apply Hdom in Hin as [? ?]. congruence.
Qed.

Lemma set_pin_configures_once_witness :
  events (run ([(48, true); (5, true)] ++ [(48, false)])%Z fresh) =
    events (run [(48, true); (5, true)]%Z fresh) ++ [] ++ [SetValue 48 0].
Proof.
  apply (set_pin_configures_once [(48, true); (5, true)]%Z 48%Z).
Defined.

End Board.

(** * More on the read loop: partial reads and stale input *)

Module Transport.
Import Py PyFacts ReadI2C LoopFacts ExecFacts.
Local Open Scope nat_scope.

(** The bytes a poll finds waiting after [k] sleeps: before the first sleep
    those already buffered, later on those of the last 10 ms. *)
Definition seen_at (s : Serial) (k : nat) : bytes :=
  match k with
  | O => in_buf s
  | S k' => arrivals (line s) (now s + 10 * k') 10
  end.

(** All that has reached the host after [k] sleeps. *)
Definition stream (s : Serial) (k : nat) : bytes :=
  in_buf s ++ arrivals (line s) (now s) (10 * k).

Lemma stream_0 (s : Serial) : stream s 0 = in_buf s.
Proof. unfold stream, arrivals. simpl. apply app_nil_r. Qed.

Lemma stream_sleep (s : Serial) (k : nat) :
  in_buf s = [] -> stream (time_sleep 10 s) k = stream s (S k).
Proof.
  intros B. unfold stream. cbn [in_buf line now time_sleep]. rewrite B.
  replace (10 * S k) with (10 + 10 * k) by lia.
  by rewrite arrivals_app.
Qed.

Lemma stream_drained (s : Serial) (k : nat) :
  in_buf s ++ stream (time_sleep 10 (drained s)) k = stream s (S k).
Proof.
  unfold stream. cbn [in_buf line now time_sleep drained].
  replace (10 * S k) with (10 + 10 * k) by lia.
  by rewrite arrivals_app.
Qed.

Lemma seen_at_drained (s : Serial) (k : nat) :
  seen_at (time_sleep 10 (drained s)) k = seen_at s (S k).
Proof.
  destruct k as [|k]; cbn [seen_at in_buf line now time_sleep drained].
  - simpl app. f_equal. lia.
  - f_equal. lia.
Qed.

Lemma seen_at_sleep (s0 : Serial) (k : nat) :
  in_buf s0 = [] -> seen_at (time_sleep 10 s0) k = seen_at s0 (S k).
Proof.
  intros B. destruct k as [|k]; cbn [seen_at in_buf line now time_sleep].
  - rewrite B. simpl app. f_equal. lia.
  - f_equal. lia.
Qed.

Lemma loop_prefix (polls : nat) :
  forall ret s ret' s',
    read_until_marker polls ret s = Some (ret', s') ->
    exists k, k < polls /\ ret' = ret ++ stream s k /\
              now s' = now s + 10 * k.
Proof.
  induction polls as [|polls IH]; intros ret s ret' s'; [done|].
  rewrite read_until_marker_S. destruct (in_buf s) as [|c x] eqn:B.
  - intros H. apply IH in H as (k & Hk & -> & ->). exists (S k).
    split; [lia|]. rewrite (stream_sleep s k B).
    split; [done|]. simpl now. lia.
  - destruct (endswith (ret ++ c :: x) marker) eqn:E.
    + intros [= <- <-]. exists 0. split; [lia|]. rewrite stream_0, B.
      split; [done|]. simpl. lia.
    + intros H. apply IH in H as (k & Hk & -> & ->). exists (S k).
      split; [lia|]. rewrite <- app_assoc, <- B, stream_drained.
      split; [done|]. simpl now. lia.
Qed.

Lemma loop_live (k : nat) :
  forall ret s,
    endswith (ret ++ stream s k) marker = true -> seen_at s k <> [] ->
    exists k' s', k' <= k /\
      read_until_marker (S k) ret s = Some (ret ++ stream s k', s').
Proof.
  induction k as [|k IH]; intros ret s Hend Hseen.
  - rewrite read_until_marker_S. rewrite stream_0 in Hend.
    cbn [seen_at] in Hseen.
    destruct (in_buf s) as [|c x] eqn:B; [done|]. rewrite Hend.
    exists 0, (drained s). split; [lia|]. by rewrite stream_0, B.
  - rewrite read_until_marker_S.
    destruct (in_buf s) as [|c x] eqn:B.
    + destruct (IH ret (time_sleep 10 s)) as (k' & s' & Hk & E).
      * by rewrite stream_sleep.
      * by rewrite seen_at_sleep.
      * exists (S k'), s'. split; [lia|]. by rewrite E, stream_sleep.
    + destruct (endswith (ret ++ c :: x) marker) eqn:E0.
      * exists 0, (drained s). split; [lia|]. by rewrite stream_0, B.
      * destruct (IH (ret ++ c :: x) (time_sleep 10 (drained s)))
          as (k' & s' & Hk & E).
        -- by rewrite <- app_assoc, <- B, stream_drained.
        -- by rewrite seen_at_drained.
        -- exists (S k'), s'. split; [lia|].
           by rewrite E, <- app_assoc, <- B, stream_drained.
Qed.

Lemma arrivals_ext (f g : nat -> bytes) (t0 d : nat) :
  (forall t, t0 <= t -> f t = g t) -> arrivals f t0 d = arrivals g t0 d.
Proof.
  revert t0. induction d as [|d IH]; intros t0 H; [done|].
  change (arrivals f t0 (S d)) with (f t0 ++ arrivals f (S t0) d).
  change (arrivals g t0 (S d)) with (g t0 ++ arrivals g (S t0) d).
  rewrite (H t0) by lia. f_equal. apply IH. intros t Ht. apply H. lia.
Qed.

Lemma loop_ext (polls : nat) :
  forall ret s1 s2,
    now s1 = now s2 -> in_buf s1 = in_buf s2 ->
    (forall t, now s1 <= t -> line s1 t = line s2 t) ->
    option_map fst (read_until_marker polls ret s1)
    = option_map fst (read_until_marker polls ret s2).
Proof.
  induction polls as [|polls IH]; intros ret s1 s2 Hn Hb Hl; [done|].
  rewrite !read_until_marker_S, <- Hb.
  destruct (in_buf s1) as [|c x] eqn:B.
  - apply IH; cbn [now in_buf line time_sleep].
    + lia.
    + by rewrite <- Hb, <- Hn, B, (arrivals_ext _ _ _ _ Hl).
    + intros t Ht. apply Hl. lia.
  - destruct (endswith (ret ++ c :: x) marker); [done|].
    apply IH; cbn [now in_buf line time_sleep drained].
    + lia.
    + by rewrite <- Hn, (arrivals_ext _ _ _ _ Hl).
    + intros t Ht. apply Hl. lia.
Qed.

(** X1: when [exec_raw] returns, what it has parsed is exactly the bytes
    that reached the host between the clearing of the input buffer (50 ms
    after the call) and its last poll, in their order of arrival, however
    they were cut into pieces; that stream ends with 0x04 '>', the call has
    taken 50 ms and 10 ms for each sleep, and the input buffer is empty
    again. *)
Theorem exec_raw_parses_stream (polls : nat) (code : str) (payload : bytes)
        (s : Serial) (r : outcome str) (s' : Serial) :
  encode code = Some payload ->
  exec_raw polls code s = Some (r, s') ->
  exists k, k < polls /\
    r = parse_response (arrivals (line s) (now s + 50) (10 * k)) /\
    endswith (arrivals (line s) (now s + 50) (10 * k)) marker = true /\
    now s' = now s + 50 + 10 * k /\ in_buf s' = [].
Proof.
  intros Hc. unfold exec_raw, send_code. rewrite Hc, enter_raw_eq.
  destruct (read_until_marker _ _ _) as [[ret s1]|] eqn:E; [|done].
  intros [= <- <-].
  pose proof (read_until_marker_inv _ _ _ _ _ E) as (Hend & Hbuf & _ & _).
  apply loop_prefix in E as (k & Hk & -> & Hnow). exists k.
  unfold stream in *. simpl in Hend, Hnow |- *. by rewrite Hnow.
Qed.

Lemma exec_raw_parses_stream_witness :
  exists k, k < 2 /\
    Return (u "7") = parse_response
      (arrivals (line (sim (b "OK7" ++ [x04; x04] ++ b ">"))) (0 + 50) (10 * k)).
Proof.
  assert (exists s', exec_raw 2 (u "print(7)")
                        (sim (b "OK7" ++ [x04; x04] ++ b ">"))
                      = Some (Return (u "7"), s')) as [s' H]
    by (eexists; reflexivity).
  destruct (exec_raw_parses_stream 2 (u "print(7)") (b "print(7)") _ _ _
              eq_refl H)
    as (k & Hk & E & _).
  exists k. split; [exact Hk | exact E].
Defined.

(** X2: partial reads delay an answer but do not lose it.  If, after some
    number of sleeps, the stream received since the input buffer was cleared
    ends with 0x04 '>' and bytes came in during the last sleep, [exec_raw]
    returns by then at the latest, given polls enough to get there; what it
    parses is the stream up to the poll at which it stopped. *)
Theorem exec_raw_answers (polls : nat) (code : str) (payload : bytes)
        (s : Serial) (k : nat) :
  encode code = Some payload ->
  endswith (arrivals (line s) (now s + 50) (10 * S k)) marker = true ->
  arrivals (line s) (now s + 50 + 10 * k) 10 <> [] ->
  S (S k) <= polls ->
  exists k' s', k' <= S k /\
    exec_raw polls code s
    = Some (parse_response (arrivals (line s) (now s + 50) (10 * k')), s').
Proof.
  intros Hc Hend Hseen Hpolls. unfold exec_raw, send_code.
  rewrite Hc, enter_raw_eq. set (s1 := ser_write _ _).
  destruct (loop_live (S k) [] s1) as (k' & s' & Hk & E); [done|done|].
  apply (read_until_marker_mono _ polls) in E; [|done].
  rewrite E. by exists k', s'.
Qed.

Lemma exec_raw_answers_witness :
  exists k' s', k' <= 1 /\
    exec_raw 2 (u "print(7)") (sim (b "OK7" ++ [x04; x04] ++ b ">"))
    = Some (parse_response
              (arrivals (line (sim (b "OK7" ++ [x04; x04] ++ b ">")))
                        (0 + 50) (10 * k')), s').
Proof.
  apply (exec_raw_answers 2 (u "print(7)") (b "print(7)")
           (sim (b "OK7" ++ [x04; x04] ++ b ">")) 0).
  - reflexivity.
  - reflexivity.
  - discriminate.
  - lia.
Defined.

(** X3: clearing the input buffer makes [exec_raw] blind to stale input.
    Two ports at the same time whose lines agree from 50 ms after the call
    on give the same result, whatever was buffered before the call and
    whatever arrived during the first 50 ms. *)
Theorem exec_raw_ignores_stale_input (polls : nat) (code : str)
        (s1 s2 : Serial) :
  now s1 = now s2 ->
  (forall t, now s1 + 50 <= t -> line s1 t = line s2 t) ->
  option_map fst (exec_raw polls code s1)
  = option_map fst (exec_raw polls code s2).
Proof.
  intros Hn Hl. unfold exec_raw, send_code. rewrite !enter_raw_eq.
  destruct (encode code) as [payload|]; [|done].
  pose proof (loop_ext polls []
                (ser_write (payload ++ [x04])
                   {| now := now s1 + 50; line := line s1; in_buf := [];
                      out_log := out_log s1 ++ [(now s1, [x01])] |})
                (ser_write (payload ++ [x04])
                   {| now := now s2 + 50; line := line s2; in_buf := [];
                      out_log := out_log s2 ++ [(now s2, [x01])] |})) as E.
  cbn [now in_buf line ser_write] in E.
  specialize (E ltac:(lia) eq_refl Hl).
  destruct (read_until_marker polls [] _) as [[r1 t1]|];
    destruct (read_until_marker polls [] _) as [[r2 t2]|];
    simpl in E; try done.
  by injection E as ->.
Qed.

(** A port with a stale prompt in its buffer and more of it on the way. *)
Definition noisy (reply : bytes) : Serial :=
  {| now := 0;
     line := fun t => if Nat.eqb t 10 then b "raw REPL; CTRL-B to exit"
                      else if Nat.eqb t 55 then reply else [];
     in_buf := b ">>> "; out_log := [] |}.

Lemma exec_raw_ignores_stale_input_witness :
  option_map fst (exec_raw 2 (u "print(7)")
                    (noisy (b "OK7" ++ [x04; x04] ++ b ">")))
  = option_map fst (exec_raw 2 (u "print(7)")
                      (sim (b "OK7" ++ [x04; x04] ++ b ">"))).
Proof.
  apply exec_raw_ignores_stale_input; [reflexivity|].
  intros t Ht. simpl in *. destruct (Nat.eqb_spec t 10); [lia|reflexivity].
Defined.

End Transport.

(** * More on the parsing step and on UTF-8 *)

Module Parsing.
Import Py PyFacts ReadI2C LoopFacts ExecFacts.
Local Open Scope nat_scope.

Lemma rstrip_idem (s : str) : rstrip (rstrip s) = rstrip s.
Proof.
  induction s as [|c s IH]; [done|]. simpl.
  destruct (rstrip s) as [|d t] eqn:E.
  - destruct (isspace c) eqn:Hc; [done|]. simpl. by rewrite Hc.
  - simpl in *. rewrite IH. done.
Qed.

Lemma rstrip_tail (c : N) (s : str) : rstrip (c :: s) = c :: s -> rstrip s = s.
Proof.
  simpl. destruct (rstrip s) as [|d t] eqn:E.
  - destruct (isspace c); [done|]. by intros [= <-].
  - by intros [= <-].
Qed.

Lemma rstrip_drop (n : nat) (s : str) : rstrip s = s -> rstrip (drop n s) = drop n s.
Proof.
  revert s. induction n as [|n IH]; intros s H; [by rewrite drop_0|].
  destruct s as [|c s]; [done|]. simpl. apply IH. by eapply rstrip_tail.
Qed.

Lemma lstrip_head (s : str) :
  match lstrip s with [] => True | c :: _ => isspace c = false end.
Proof.
  induction s as [|c s IH]; [done|]. simpl.
  destruct (isspace c) eqn:E; [done|]. simpl. done.
Qed.

Lemma lstrip_strip (s : str) : lstrip (strip s) = strip s.
Proof.
  unfold strip. pose proof (lstrip_head s) as H.
  destruct (lstrip s) as [|c t]; [done|].
  rewrite rstrip_cons by done. simpl. by rewrite H.
Qed.

Lemma strip_idem (s : str) : strip (strip s) = strip s.
Proof.
  unfold strip at 1. rewrite lstrip_strip. unfold strip. apply rstrip_idem.
Qed.

Lemma parse_response_shape (ret : bytes) :
  match parse_response ret with
  | Return output => rstrip output = output
  | Raise e =>
      exists error, e = RuntimeError (u "ESP32 Error: " ++ error) /\
                    error <> [] /\ strip error = error
  end.
Proof.
  unfold parse_response. destruct (2 <=? length (split x04 ret)); [|done].
  destruct (strip (decode_replace (nth 1 (split x04 ret) []))) as [|c e] eqn:E.
  - set (output := strip _). assert (rstrip output = output) as Hfix.
    { unfold output, strip. apply rstrip_idem. }
    destruct (startswith output (u "OK")); [|done]. by apply rstrip_drop.
  - exists (c :: e). split; [done|]. split; [done|].
    rewrite <- E. apply strip_idem.
Qed.

(** X4: whatever bytes come in, the parsing step of [exec_raw] hands back a
    text without white space at its end, or raises a [RuntimeError] whose
    message is "ESP32 Error: " followed by a non-empty text without white
    space at either end; it raises nothing else. *)
Theorem parse_response_tidy (ret : bytes) :
  match parse_response ret with
  | Return output => rstrip output = output
  | Raise e =>
      exists error, e = RuntimeError (u "ESP32 Error: " ++ error) /\
                    error <> [] /\ strip error = error
  end.
Proof. apply parse_response_shape. Qed.

(** X5: only the first two segments count.  Whatever follows the second
    0x04 (the '>' of the prompt, or anything else) does not change the
    result, and a response with a single 0x04 is parsed the same way. *)
Theorem parse_response_ignores_rest (out err rest : bytes) :
  has_byte x04 out = false -> has_byte x04 err = false ->
  parse_response (out ++ x04 :: err ++ x04 :: rest)
  = parse_response (out ++ x04 :: err).
Proof.
  intros Hout Herr. rewrite (parse_response_framed _ _ _ Hout Herr).
  unfold parse_response. rewrite (split_segment x04 out) by done.
  rewrite (split_no_sep x04 err) by done. cbn [length Nat.leb nth].
  by destruct (strip (decode_replace err)).
Qed.

Lemma parse_response_ignores_rest_witness :
  parse_response (b "OK7" ++ x04 :: b "" ++ x04 :: b ">>> garbage")
  = parse_response (b "OK7" ++ x04 :: b "").
Proof.
  apply (parse_response_ignores_rest (b "OK7") (b "") (b ">>> garbage"));
    reflexivity.
Defined.

End Parsing.

(** * UTF-8 there and back *)

Module Utf8.
Import Py PyFacts ReadI2C LoopFacts ExecFacts.

Ltac settle_test :=
  match goal with
  | |- context [N.ltb ?x ?y] => destruct (N.ltb_spec x y); try (exfalso; lia)
  | |- context [N.leb ?x ?y] => destruct (N.leb_spec x y); try (exfalso; lia)
  | |- context [N.eqb ?x ?y] => destruct (N.eqb_spec x y); try (exfalso; lia)
  end.

(** Name quotient and remainder of [x] by 64, so that what is left is
    linear. *)
Ltac by_64 x q m :=
  pose proof (N.div_mod x 64 ltac:(lia));
  pose proof (N.mod_lt x 64 ltac:(lia));
  set (q := x / 64) in *; set (m := x mod 64) in *; clearbody q m.

Lemma div_4096 (c : N) : c / 4096 = c / 64 / 64.
Proof. by rewrite N.Div0.div_div. Qed.

Lemma div_262144 (c : N) : c / 262144 = c / 64 / 64 / 64.
Proof. by rewrite !N.Div0.div_div. Qed.

Lemma decode_encode1 (h : str) (c : N) (x r : bytes) :
  encode1 c = Some x -> decode h (x ++ r) = c :: decode h r.
Proof.
  unfold encode1.
  destruct (N.ltb_spec c 0x80) as [H1|H1].
  { intros [= <-]. cbn [app decode]. rewrite to_N_byte_of by lia.
    destruct (N.ltb_spec c 0x80); [done|lia]. }
  destruct (N.ltb_spec c 0x800) as [H2|H2].
  { intros [= <-]. cbn [app decode]. unfold is_cont.
    by_64 c q m. rewrite !to_N_byte_of by lia.
    repeat settle_test; cbn [andb negb orb]. f_equal. lia. }
  destruct (N.ltb_spec c 0x10000) as [H3|H3].
  { destruct (N.leb_spec 0xD800 c) as [H4|H4];
      [destruct (N.ltb_spec c 0xE000) as [H5|H5]|]; cbn [andb]; [done|..];
      intros [= <-]; cbn [app decode]; unfold is_cont;
      rewrite div_4096; by_64 c q m; by_64 q q' m';
      rewrite !to_N_byte_of by lia;
      repeat settle_test; cbn [andb negb orb]; f_equal; lia. }
  destruct (N.ltb_spec c 0x110000) as [H4|H4]; [|done].
  intros [= <-]. cbn [app decode]. unfold is_cont.
  rewrite div_262144, div_4096. by_64 c q m. by_64 q q' m'. by_64 q' q'' m''.
  rewrite !to_N_byte_of by lia.
  repeat settle_test; cbn [andb negb orb]; f_equal; lia.
Qed.

Lemma decode_encode (h s : str) (x : bytes) :
  encode s = Some x -> decode h x = s.
Proof.
  revert x. induction s as [|c s IH]; intros x; [by intros [= <-]|].
  cbn [encode]. destruct (encode1 c) as [x1|] eqn:E1; [|done].
  destruct (encode s) as [x2|]; [|done]. intros [= <-].
  rewrite (decode_encode1 _ _ _ _ E1). f_equal. by apply IH.
Qed.

Local Open Scope nat_scope.

(** A text Python can encode: no surrogate, no number beyond U+10FFFF. *)
Definition encodable (s : str) : bool :=
  forallb (fun c => (c <? 0xD800) || ((0xE000 <=? c) && (c <? 0x110000)))%N s.

Lemma encode1_none (c : N) :
  encode1 c = None
  <-> ((c <? 0xD800) || ((0xE000 <=? c) && (c <? 0x110000)))%N = false.
Proof.
  unfold encode1.
  repeat settle_test; cbn [andb orb]; split; (done || lia || idtac).
Qed.

Lemma encode_none (s : str) : encode s = None <-> encodable s = false.
Proof.
  induction s as [|c s IH]; [done|]. cbn [encode encodable forallb].
  fold (encodable s). rewrite andb_false_iff, <- IH, <- encode1_none.
  destruct (encode1 c), (encode s); split; try (done || auto).
  all: by intros [?|?].
Qed.

(** X6: the bytes [exec_raw] puts on the line for a code string decode, as
    UTF-8, to exactly that string: the single write after Ctrl+A is these
    bytes followed by 0x04. *)
Theorem send_code_decodes (code : str) (s s1 : Serial) :
  send_code code s = Some s1 ->
  exists payload, written s1 = written s ++ [payload ++ [x04]] /\
                  decode_replace payload = code.
Proof.
  unfold send_code. destruct (encode code) as [payload|] eqn:E; [|done].
  intros [= <-]. exists payload. split.
  - unfold written. simpl. by rewrite List.map_app.
  - by apply decode_encode.
Qed.

Lemma send_code_decodes_witness :
  exists payload,
    written (ser_write ([xc3; xa9] ++ [x04]) (sim []))
    = written (sim []) ++ [payload ++ [x04]] /\
    decode_replace payload = [233%N].
Proof.
  apply (send_code_decodes [233%N] (sim [])). reflexivity.
Defined.

(** X7: [exec_raw] raises [UnicodeEncodeError] exactly for a code string
    that holds a surrogate (or a number that is no code point); it does so
    at once, whatever the line does, after Ctrl+A was written and the input
    buffer cleared, and with nothing of the code sent. *)
Theorem exec_raw_unencodable (polls : nat) (code : str) (s : Serial) :
  ((exists s', exec_raw polls code s = Some (Raise UnicodeEncodeError, s'))
   <-> encodable code = false) /\
  (encodable code = false ->
   exec_raw polls code s = Some (Raise UnicodeEncodeError, enter_raw s) /\
   written (enter_raw s) = written s ++ [[x01]]).
Proof.
  assert (encodable code = false ->
          exec_raw polls code s = Some (Raise UnicodeEncodeError, enter_raw s))
    as Hraise.
  { intros H. apply encode_none in H. unfold exec_raw, send_code.
    by rewrite H. }
  split; [split|].
  - intros [s' H]. unfold exec_raw, send_code in H.
    destruct (encode code) as [payload|] eqn:E; [|by apply encode_none].
    destruct (read_until_marker _ _ _) as [[ret s1]|]; [|done].
    injection H as H _. pose proof (Parsing.parse_response_shape ret) as T.
    rewrite H in T. by destruct T as (? & ? & _).
  - intros H. eexists. by apply Hraise.
  - intros H. split; [by apply Hraise|].
    rewrite enter_raw_eq. unfold written. simpl. by rewrite List.map_app.
Qed.

Lemma exec_raw_unencodable_witness :
  exec_raw 0 [0xD800%N] (sim [])
  = Some (Raise UnicodeEncodeError, enter_raw (sim [])).
Proof.
  apply (exec_raw_unencodable 0 [0xD800%N] (sim [])). reflexivity.
Defined.

(** X8: what the board prints comes back as text.  When the reply is "OK",
    the UTF-8 bytes of a text without the character U+0004, then 0x04 0x04
    '>', and it arrives in one piece, [exec_raw] returns that text with the
    white space at its end removed, as soon as a poll finds the reply. *)
Theorem exec_raw_returns_text (polls : nat) (code text : str)
        (payload body : bytes) (s : Serial) (j t : nat) :
  encode code = Some payload -> encode text = Some body ->
  has_byte x04 body = false ->
  replies s j t (b "OK" ++ body ++ [x04; x04] ++ b ">") -> j + 2 <= polls ->
  exists s', exec_raw polls code s = Some (Return (rstrip text), s').
Proof.
  intros Hc Ht Hbody Hrep Hpolls.
  destruct (exec_raw_replies polls code payload s j t _ Hc Hrep)
    as (s' & E & _); [discriminate | | done |].
  { change ([x04; x04] ++ b ">") with ([x04] ++ marker).
    rewrite !app_assoc. apply endswith_app. }
  exists s'. rewrite E. f_equal.
  change ([x04; x04] ++ b ">") with (x04 :: [] ++ x04 :: b ">").
  rewrite Driver.parse_response_ok_body by done.
  unfold decode_replace. by rewrite (decode_encode _ _ _ Ht).
Qed.

Lemma exec_raw_returns_text_witness :
  exists s', exec_raw 2 (u "print(t)")
               (sim (b "OK" ++ ([xc3; xa9] ++ b " ok" ++ [x0d; x0a])
                     ++ [x04; x04] ++ b ">"))
             = Some (Return ([233%N] ++ u " ok"), s').
Proof.
  apply (exec_raw_returns_text 2 (u "print(t)")
           ([233%N] ++ u " ok" ++ [13%N; 10%N]) (b "print(t)")
           ([xc3; xa9] ++ b " ok" ++ [x0d; x0a]) _ 0 55).
  - reflexivity.
  - reflexivity.
  - reflexivity.
  - apply sim_replies.
  - lia.
Defined.

End Utf8.

(** * The other methods of [ESPI2C] on a replying board *)

Module Facade.
Import Py PyFacts ReadI2C LoopFacts ExecFacts ESPI2C.
Local Open Scope nat_scope.

(** A reply with both separators and the prompt. *)
Definition framed (out err : bytes) : bytes :=
  out ++ x04 :: err ++ x04 :: b ">".

(** What [exec_raw] makes of a framed reply. *)
Definition verdict (out err : bytes) : outcome str :=
  match strip (decode_replace err) with
  | [] => Return (without_ok (strip (decode_replace out)))
  | c :: e => Raise (RuntimeError (u "ESP32 Error: " ++ c :: e))
  end.

Lemma exec_raw_framed (polls : nat) (code : str) (out err : bytes)
      (s : Serial) (j t : nat) :
  ascii code = true ->
  has_byte x04 out = false -> has_byte x04 err = false ->
  replies s j t (framed out err) -> j + 2 <= polls ->
  exists s', exec_raw polls code s = Some (verdict out err, s') /\
             in_buf s' = [] /\
             written s' = written s
                          ++ [[x01]; List.map byte_of_N code ++ [x04]].
Proof.
  intros Hc Hout Herr Hrep Hpolls.
  destruct (exec_raw_replies polls code _ s j t _ (encode_ascii _ Hc) Hrep)
    as (s' & E & Hb & Hl); [by destruct out | | done |].
  { unfold framed. change (out ++ x04 :: err ++ x04 :: b ">")
      with (out ++ (x04 :: err) ++ marker).
    rewrite app_assoc. apply endswith_app. }
  exists s'. split; [|split; [done|]].
  - rewrite E. f_equal. unfold framed, verdict.
    by rewrite parse_response_framed.
  - unfold written. rewrite Hl, List.map_app. done.
Qed.

Lemma replies_shift (s1 s2 : Serial) (j t : nat) (reply : bytes) :
  now s1 = now s2 -> line s1 = line s2 ->
  replies s1 j t reply -> replies s2 j t reply.
Proof. unfold replies. by intros -> ->. Qed.

Lemma ascii_read_cmd (a r n : Z) : ascii (read_cmd a r n) = true.
Proof. unfold read_cmd. by rewrite !ascii_app, !ascii_str_of_Z. Qed.

Lemma ascii_write_cmd (a r d : Z) : ascii (write_cmd a r d) = true.
Proof. unfold write_cmd. by rewrite !ascii_app, !ascii_str_of_Z. Qed.

(** X9: [read_from_mem] never raises.  On a framed reply it sends
    print(i2c.readfrom_mem(address, register, num_bytes)) with the numbers
    in decimal; when the stderr segment is blank it returns the stripped
    stdout text as it is (the printed bytes literal, not decoded further,
    and possibly the empty string); otherwise it prints "Read failed:
    ESP32 Error: ..." and returns [None]. *)
Theorem read_from_mem_result (polls : nat) (address register num_bytes : Z)
        (out err : bytes) (s : Serial) (j t : nat) :
  has_byte x04 out = false -> has_byte x04 err = false ->
  replies s j t (framed out err) -> j + 2 <= polls ->
  exists s',
    read_from_mem polls address register num_bytes s
    = Some (match strip (decode_replace err) with
            | [] => (Some (without_ok (strip (decode_replace out))), [])
            | c :: e => (None, [u "Read failed: ESP32 Error: " ++ c :: e])
            end, s') /\
    written s' = written s
                 ++ [[x01];
                     List.map byte_of_N
                       (read_cmd address register num_bytes) ++ [x04]].
Proof.
  intros Hout Herr Hrep Hpolls. unfold read_from_mem.
  destruct (exec_raw_framed polls _ out err s j t
              (ascii_read_cmd address register num_bytes) Hout Herr Hrep Hpolls)
    as (s' & -> & _ & Hw).
  exists s'. split; [|done]. unfold verdict.
  by destruct (strip (decode_replace err)).
Qed.

Lemma read_from_mem_result_witness :
  exists s',
    read_from_mem 2 0x23 0x00 1
      (sim (framed (b "OKb'\x05'") []))
    = Some (Some (u "b'\x05'"), [], s') /\
    written s' = [[x01]; b "print(i2c.readfrom_mem(35, 0, 1))" ++ [x04]].
Proof.
  apply (read_from_mem_result 2 0x23 0x00 1 (b "OKb'\x05'") []
           (sim (framed (b "OKb'\x05'") [])) 0 55).
  - reflexivity.
  - reflexivity.
  - apply sim_replies.
  - lia.
Defined.

(** X10: [write_to_mem] never raises and ignores what the board printed: on
    a framed reply it sends i2c.writeto_mem(address, register,
    bytes([data_byte])) and prints one line, "Wrote ... to reg ... at addr
    ..." when the stderr segment is blank and "Write failed: ESP32 Error:
    ..." otherwise. *)
Theorem write_to_mem_result (polls : nat) (address register data_byte : Z)
        (out err : bytes) (s : Serial) (j t : nat) :
  has_byte x04 out = false -> has_byte x04 err = false ->
  replies s j t (framed out err) -> j + 2 <= polls ->
  exists s',
    write_to_mem polls address register data_byte s
    = Some (match strip (decode_replace err) with
            | [] => [u "Wrote " ++ str_of_Z data_byte ++ u " to reg "
                     ++ str_of_Z register ++ u " at addr "
                     ++ str_of_Z address]
            | c :: e => [u "Write failed: ESP32 Error: " ++ c :: e]
            end, s') /\
    written s' = written s
                 ++ [[x01];
                     List.map byte_of_N
                       (write_cmd address register data_byte) ++ [x04]].
Proof.
  intros Hout Herr Hrep Hpolls. unfold write_to_mem.
  destruct (exec_raw_framed polls _ out err s j t
              (ascii_write_cmd address register data_byte) Hout Herr Hrep Hpolls)
    as (s' & -> & _ & Hw).
  exists s'. split; [|done]. unfold verdict.
  by destruct (strip (decode_replace err)).
Qed.

Lemma write_to_mem_result_witness :
  exists s',
    write_to_mem 2 0x23 0x01 255
      (sim (framed (b "OK") (b "OSError: [Errno 19] ENODEV")))
    = Some ([u "Write failed: ESP32 Error: OSError: [Errno 19] ENODEV"], s') /\
    written s'
    = [[x01]; b "i2c.writeto_mem(35, 1, bytes([255]))" ++ [x04]].
Proof.
  apply (write_to_mem_result 2 0x23 0x01 255 (b "OK")
           (b "OSError: [Errno 19] ENODEV")
           (sim (framed (b "OK") (b "OSError: [Errno 19] ENODEV"))) 0 55).
  - reflexivity.
  - reflexivity.
  - apply sim_replies.
  - lia.
Defined.

Lemma ascii_init_code : ascii init_code = true.
Proof. reflexivity. Qed.

Lemma connect_and_init_framed (polls : nat) (out err : bytes) (s : Serial)
      (j t : nat) :
  has_byte x04 out = false -> has_byte x04 err = false ->
  replies (time_sleep 200 s) j t (framed out err) -> j + 2 <= polls ->
  exists s',
    connect_and_init polls s
    = Some (match strip (decode_replace err) with
            | [] => Return tt
            | c :: e => Raise (RuntimeError (u "ESP32 Error: " ++ c :: e))
            end, s') /\
    written s' = written s
                 ++ [[x03]; [x01]; [x01];
                     List.map byte_of_N init_code ++ [x04]].
Proof.
  intros Hout Herr Hrep Hpolls. unfold connect_and_init.
  rewrite ser_read_all_eq. cbn [snd].
  set (s1 := {| now := _; line := _; in_buf := []; out_log := _ |}).
  destruct (exec_raw_framed polls init_code out err s1 j t ascii_init_code
              Hout Herr) as (s' & -> & _ & Hw); [|done|].
  { apply (replies_shift (time_sleep 200 s)); [simpl; lia|done|done]. }
  exists s'. split.
  - unfold verdict. by destruct (strip (decode_replace err)).
  - assert (written s1 = written s ++ [[x03]; [x01]]) as Hs1.
    { unfold written, s1. simpl. rewrite !List.map_app. simpl.
      by rewrite <- app_assoc. }
    destruct (verdict out err); rewrite Hw, Hs1; by rewrite <- app_assoc.
Qed.

(** X11: [connect_and_init] lets the board's error out.  It writes Ctrl+C,
    Ctrl+A, and then, through [exec_raw], Ctrl+A again and the I2C setup
    code; when the reply to that code has a stderr segment that is not
    blank, the [RuntimeError] reaches the caller, and otherwise the call
    returns normally, whatever the code printed. *)
Theorem connect_and_init_result (polls : nat) (out err : bytes) (s : Serial)
        (j t : nat) :
  has_byte x04 out = false -> has_byte x04 err = false ->
  replies (time_sleep 200 s) j t (framed out err) -> j + 2 <= polls ->
  exists s',
    connect_and_init polls s
    = Some (match strip (decode_replace err) with
            | [] => Return tt
            | c :: e => Raise (RuntimeError (u "ESP32 Error: " ++ c :: e))
            end, s') /\
    written s' = written s
                 ++ [[x03]; [x01]; [x01];
                     List.map byte_of_N init_code ++ [x04]].
Proof. apply connect_and_init_framed. Qed.

(** A board that answers 255 ms after the port was opened. *)
Definition sim_init (reply : bytes) : Serial :=
  {| now := 0; line := fun t => if Nat.eqb t 255 then reply else [];
     in_buf := []; out_log := [] |}.

Lemma sim_init_replies (reply : bytes) :
  replies (time_sleep 200 (sim_init reply)) 0 255 reply.
Proof. split; [|simpl; lia]. by intros t' _. Qed.

Lemma connect_and_init_result_witness :
  exists s',
    connect_and_init 2 (sim_init (framed (b "OK") (b "ValueError: invalid pin")))
    = Some (Raise (RuntimeError (u "ESP32 Error: ValueError: invalid pin")), s').
Proof.
  destruct (connect_and_init_result 2 (b "OK") (b "ValueError: invalid pin")
              (sim_init (framed (b "OK") (b "ValueError: invalid pin"))) 0 255
              eq_refl eq_refl (sim_init_replies _) ltac:(lia))
    as (s' & E & _).
  exists s'. exact E.
Defined.

(** X12: when the board answers the setup code with an error, the main
    block prints "Connecting to ..." and "Error: ESP32 Error: ...", sends no
    scan, and never calls [close]: the constructor has raised, so [esp] is
    still [None] in the [finally] clause. *)
Theorem main_init_failure (polls : nat) (out err : bytes) (s : Serial)
        (j t : nat) :
  has_byte x04 out = false -> has_byte x04 err = false ->
  strip (decode_replace err) <> [] ->
  replies (time_sleep 200 s) j t (framed out err) -> j + 2 <= polls ->
  exists s',
    main polls s
    = Some (MainDone
              [u "Connecting to /dev/tty.usbmodem101...";
               u "Error: ESP32 Error: " ++ strip (decode_replace err)]
              false, s') /\
    written s' = written s
                 ++ [[x03]; [x01]; [x01];
                     List.map byte_of_N init_code ++ [x04]].
Proof.
  intros Hout Herr Hne Hrep Hpolls. unfold main.
  destruct (connect_and_init_framed polls out err s j t Hout Herr Hrep Hpolls)
    as (s' & -> & Hw).
  exists s'. split; [|done].
  by destruct (strip (decode_replace err)).
Qed.

Lemma main_init_failure_witness :
  exists s',
    main 2 (sim_init (framed (b "OK") (b "ValueError: invalid pin")))
    = Some (MainDone
              [u "Connecting to /dev/tty.usbmodem101...";
               u "Error: ESP32 Error: ValueError: invalid pin"]
              false, s').
Proof.
  destruct (main_init_failure 2 (b "OK") (b "ValueError: invalid pin")
              (sim_init (framed (b "OK") (b "ValueError: invalid pin"))) 0 255
              eq_refl eq_refl ltac:(discriminate) (sim_init_replies _)
              ltac:(lia))
    as (s' & E & _).
  exists s'. exact E.
Defined.

End Facade.

(** * [scan] on a board that ends its line *)

Module ScanMore.
Import Py PyFacts ReadI2C LoopFacts ExecFacts.
Local Open Scope nat_scope.

(** ASCII white space, as [print] and the REPL emit it. *)
Definition blank_ascii (ws : str) : bool :=
  forallb (fun c => isspace c && (c <? 0x80)%N) ws.

Lemma blank_ascii_isspace (ws : str) :
  blank_ascii ws = true -> forallb isspace ws = true.
Proof.
  induction ws as [|c ws IH]; [done|]. unfold blank_ascii. simpl.
  rewrite !andb_true_iff. intros [[-> _] H]. split; [done|]. by apply IH.
Qed.

Lemma blank_ascii_ascii (ws : str) : blank_ascii ws = true -> ascii ws = true.
Proof.
  induction ws as [|c ws IH]; [done|]. unfold blank_ascii, ascii. simpl.
  rewrite !andb_true_iff. intros [[_ ->] H]. split; [done|]. by apply IH.
Qed.

Lemma blank_ascii_no_eot (ws : str) :
  blank_ascii ws = true -> has_byte x04 (List.map byte_of_N ws) = false.
Proof.
  induction ws as [|c ws IH]; [done|]. unfold blank_ascii. simpl.
  rewrite !andb_true_iff. intros [[Hs Hc] H].
  rewrite orb_false_iff. split; [|by apply IH].
  apply N.ltb_lt in Hc. unfold byte_eqb. rewrite to_N_byte_of by lia.
  apply N.eqb_neq. intros <-. done.
Qed.

Lemma rstrip_blank (ws : str) : forallb isspace ws = true -> rstrip ws = [].
Proof.
  induction ws as [|c ws IH]; [done|]. simpl.
  rewrite andb_true_iff. intros [-> H]. by rewrite IH.
Qed.

Lemma rstrip_app_blank (s ws : str) :
  forallb isspace ws = true -> rstrip (s ++ ws) = rstrip s.
Proof.
  intros H. induction s as [|c s IH]; [by apply rstrip_blank|].
  simpl. by rewrite IH.
Qed.

(** X13: [scan] does not mind the end of the printed line.  When the board
    prints the list and then any ASCII white space (the carriage return and
    line feed of [print], for one), and raises nothing, [scan] returns the
    list of addresses. *)
Theorem scan_tolerates_line_end (l : list N) (ws : str) (s : Serial)
        (j t polls : nat) :
  blank_ascii ws = true ->
  replies s j t (b "OK" ++ List.map byte_of_N (repr_list l ++ ws)
                 ++ [x04; x04] ++ b ">") ->
  j + 2 <= polls ->
  exists s', scan polls s = Some (Addresses l, [u "Scanning I2C bus..."], s').
Proof.
  intros Hws Hrep Hpolls. unfold scan.
  destruct (exec_raw_replies polls (u "print(i2c.scan())")
              (b "print(i2c.scan())") s j t _ eq_refl Hrep)
    as (s' & -> & _); [discriminate | | exact Hpolls |].
  { change ([x04; x04] ++ b ">") with ([x04] ++ marker).
    rewrite !app_assoc. apply endswith_app. }
  change ([x04; x04] ++ b ">") with (x04 :: [] ++ x04 :: b ">").
  rewrite Driver.parse_response_ok_body; try done.
  2:{ rewrite List.map_app, has_byte_app.
      rewrite (blank_ascii_no_eot _ Hws), orb_false_r.
      apply printable_no_ctrl; [done|].
      apply EvalFacts.printable_repr_list. }
  unfold decode_replace. rewrite decode_ascii.
  2:{ rewrite ascii_app, (blank_ascii_ascii _ Hws), andb_true_r.
      apply printable_ascii, EvalFacts.printable_repr_list. }
  rewrite rstrip_app_blank by (by apply blank_ascii_isspace).
  destruct (EvalFacts.repr_list_closed l) as [body E].
  rewrite E, rstrip_snoc by done. rewrite <- E.
  rewrite EvalFacts.eval_repr_list.
  destruct (repr_list l) eqn:R; [by destruct l|]. by eexists.
Qed.

Lemma scan_tolerates_line_end_witness :
  exists s', scan 2 (sim (b "OK[8, 52]" ++ [x0d; x0a] ++ [x04; x04] ++ b ">"))
             = Some (Addresses [8%N; 52%N], [u "Scanning I2C bus..."], s').
Proof.
  apply (scan_tolerates_line_end [8%N; 52%N] [13%N; 10%N]
           (sim (b "OK[8, 52]" ++ [x0d; x0a] ++ [x04; x04] ++ b ">")) 0 55 2).
  - reflexivity.
  - apply (sim_replies (b "OK[8, 52]" ++ [x0d; x0a] ++ [x04; x04] ++ b ">")).
  - lia.
Defined.

End ScanMore.

(** * [ESP32Controller]: what it looks at, and when *)

Module Gui.
Import Py PyFacts EspGui LoopFacts EspGuiFacts.
Local Open Scope nat_scope.

Lemma startswith_contains (s sub : str) :
  startswith s sub = true -> contains s sub = true.
Proof. intros H. destruct s; simpl; by rewrite H. Qed.

Lemma contains_tail (c : N) (s sub : str) :
  contains s sub = true -> contains (c :: s) sub = true.
Proof. intros H. simpl. rewrite H. apply orb_true_r. Qed.

Lemma startswith_drop (pre sub s : str) :
  startswith s (pre ++ sub) = true -> contains s sub = true.
Proof.
  revert s. induction pre as [|p pre IH]; intros s; [apply startswith_contains|].
  destruct s as [|c s]; [done|]. cbn [app startswith].
  rewrite andb_true_iff. intros [_ H]. apply contains_tail. by apply IH.
Qed.

(** A text that holds [pre ++ sub] holds [sub]. *)
Lemma contains_longer (pre sub s : str) :
  contains s (pre ++ sub) = true -> contains s sub = true.
Proof.
  induction s as [|c s IH].
  - simpl. rewrite orb_false_r. apply startswith_drop.
  - cbn [contains]. rewrite orb_true_iff. intros [H|H].
    + by apply startswith_drop in H.
    + apply contains_tail. by apply IH.
Qed.

Lemma third_test (s : str) (a : bool) (pre : str) :
  a || contains s (u "Error") || contains s (pre ++ u "Error")
  = a || contains s (u "Error").
Proof.
  destruct (contains s (pre ++ u "Error")) eqn:E; [|by rewrite orb_false_r].
  apply contains_longer in E. rewrite E. by rewrite !orb_true_r.
Qed.

(** What [toggle_pin] prints for the bytes it has read. *)
Definition toggle_log (raw : bytes) : option str :=
  match raw with
  | [] => None
  | _ :: _ =>
      if contains (decode_replace raw) (u "Traceback")
         || contains (decode_replace raw) (u "Error")
      then Some (u "ESP32 ERROR: " ++ strip (decode_replace raw))
      else None
  end.

Lemma toggle_pin_eq (pin : Z) (state : bool) (s : Serial) :
  toggle_pin pin state s
  = (Return (toggle_log (arrivals (line s) (now s + 30) 100)),
     {| now := now s + 30 + 20 + 80; line := line s; in_buf := [];
        out_log := out_log s ++ [(now s, [x01]);
                                 (now s + 30, toggle_payload pin state);
                                 (now s + 30 + 20, [x04])] |}).
Proof.
  unfold toggle_pin. rewrite (encode_ascii _ (ascii_toggle_cmd _ _)).
  rewrite !ser_read_all_eq. cbn [snd in_buf now line out_log time_sleep ser_write].
  rewrite <- !app_assoc. simpl app at 1.
  change 100 with (20 + 80). rewrite arrivals_app.
  set (raw := arrivals _ _ 20 ++ arrivals _ _ 80).
  fold (toggle_payload pin state). unfold toggle_log.
  destruct raw as [|c raw]; [done|].
  change (u "NameError") with (u "Name" ++ u "Error"). rewrite third_test.
  by destruct (_ || _).
Qed.

(** X14: [toggle_pin] never raises, takes 130 ms, and judges the command by
    a fixed window: it looks at exactly the bytes that reach the host from
    30 ms to 130 ms after the call.  What was buffered or arrived earlier is
    thrown away, what arrives later is not waited for; a line goes to
    stderr exactly when those bytes, decoded, hold "Traceback" or "Error"
    (the test for "NameError" adds nothing). *)
Theorem toggle_pin_window (pin : Z) (state : bool) (s : Serial) :
  toggle_pin pin state s
  = (Return (toggle_log (arrivals (line s) (now s + 30) 100)),
     {| now := now s + 30 + 20 + 80; line := line s; in_buf := [];
        out_log := out_log s ++ [(now s, [x01]);
                                 (now s + 30, toggle_payload pin state);
                                 (now s + 30 + 20, [x04])] |}).
Proof. apply toggle_pin_eq. Qed.

(** X19: an error report that comes late is lost.  When the board's answer
    to a [toggle_pin] reaches the host between 130 ms and 160 ms after the
    call, that call has returned without a line on stderr, and the next
    [toggle_pin], made right away, clears the answer out of the input
    buffer unread: no line is printed for it either, whatever it says. *)
Theorem toggle_pin_misses_late_reply (pin pin' : Z) (state state' : bool)
        (s : Serial) (t : nat) (reply : bytes) :
  one_shot (line s) (now s) t reply ->
  now s + 130 <= t < now s + 160 ->
  fst (toggle_pin pin state s) = Return None /\
  fst (toggle_pin pin' state' (snd (toggle_pin pin state s))) = Return None.
Proof.
  intros Hline Ht. rewrite !toggle_pin_eq. cbn [fst snd now line].
  rewrite (arrivals_before _ _ t reply);
    [|eapply one_shot_later; [|done]; lia|lia].
  rewrite (arrivals_after _ _ t reply);
    [|eapply one_shot_later; [|done]; lia|lia].
  done.
Qed.

(** A board whose traceback reaches the host 140 ms after the call. *)
Definition late : Serial :=
  {| now := 0;
     line := fun t => if Nat.eqb t 140
                      then b "Traceback (most recent call last):" else [];
     in_buf := []; out_log := [] |}.

Lemma toggle_pin_misses_late_reply_witness :
  fst (toggle_pin 48 true late) = Return None /\
  fst (toggle_pin 48 false (snd (toggle_pin 48 true late))) = Return None.
Proof.
  apply (toggle_pin_misses_late_reply 48 48 true false late 140
           (b "Traceback (most recent call last):")).
  - intros t' _. reflexivity.
  - simpl. lia.
Defined.

(** X15: [ESP32Controller.__init__] judges the setup by a fixed window too:
    after Ctrl+C, Ctrl+A, the helper code and Ctrl+D it looks at exactly the
    bytes that reach the host from 100 ms to 220 ms after its start, and
    raises [ConnectionError] exactly when these bytes, decoded with
    ill-formed bytes dropped, hold "Traceback" or "Error" (the test for
    "SyntaxError" adds nothing); earlier input is thrown away. *)
Theorem controller_init_window (s : Serial) :
  controller_init s
  = ((if contains (decode_ignore (arrivals (line s) (now s + 50 + 50) 120))
            (u "Traceback")
         || contains (decode_ignore (arrivals (line s) (now s + 50 + 50) 120))
              (u "Error")
      then Raise (ConnectionError (u "ESP32 setup failed. See error log above."))
      else Return tt),
     {| now := now s + 50 + 50 + 20 + 100; line := line s; in_buf := [];
        out_log := out_log s ++ [(now s, [x03]); (now s + 50, [x01]);
                                 (now s + 50 + 50,
                                  strip_bytes ESP_INIT_CODE ++ nl);
                                 (now s + 50 + 50 + 20, [x04])] |}).
Proof.
  unfold controller_init.
  rewrite !ser_read_all_eq. cbn [snd in_buf now line out_log time_sleep ser_write].
  rewrite <- !app_assoc. simpl app at 1.
  change 120 with (20 + 100). rewrite arrivals_app.
  set (raw := arrivals _ _ 20 ++ arrivals _ _ 100).
  change (u "SyntaxError") with (u "Syntax" ++ u "Error"). rewrite third_test.
  by destruct (_ || _).
Qed.

End Gui.

(** * More on the pin cache *)

Module BoardMore.
Import Remote RemoteFacts.
Local Open Scope nat_scope.

(** The value writes among the events, in order. *)
Definition writes_of (evs : list pin_event) : list (Z * Z) :=
  omap (fun e => match e with
                 | SetValue id lv => Some (id, lv)
                 | Configure _ => None
                 end) evs.

(** X16: every call of [set_pin] writes the level asked for (1 for a true
    state, 0 otherwise) to the pin asked for, once, and nothing else is ever
    written: the value writes that reach the hardware are the calls, in
    their order. *)
Theorem set_pin_writes_in_order (calls : list (Z * bool)) :
  writes_of (events (run calls fresh))
  = List.map (fun c => (c.1, level c.2)) calls.
Proof.
  induction calls as [|[pin state] calls IH] using rev_ind; [done|].
  rewrite run_snoc.
  destruct (set_pin_step pin state _ (reached_cache _ _ (reached_run calls)))
    as [_ ->].
  unfold writes_of in *. rewrite !omap_app, IH, List.map_app.
  f_equal. by destruct (gpios (run calls fresh) !! pin).
Qed.

(** X17: after any calls of [set_pin], the cache holds an entry for exactly
    the pins that were touched, each entry is the [Pin] object of its own
    pin, and the hardware has seen exactly one configuration of each
    touched pin and none of any other pin. *)
Theorem pin_cache_content (calls : list (Z * bool)) (k : Z) :
  gpios (run calls fresh) !! k
  = (if bool_decide (k ∈ calls.*1) then Some (PinOut k) else None) /\
  configured k (events (run calls fresh))
  = (if bool_decide (k ∈ calls.*1) then 1 else 0).
Proof.
  destruct (reached_run calls) as [Hok Hdom Hcnt _]. split; [|apply Hcnt].
  case_bool_decide as Hin.
  - apply Hdom in Hin as [p Hp]. by rewrite Hp, (Hok _ _ Hp).
  - destruct (gpios (run calls fresh) !! k) eqn:E; [|done].
    exfalso. apply Hin, Hdom. eauto.
Qed.

End BoardMore.

(** * The command [toggle_pin] sends names its pin and state *)

Module Command.
Import Py PyFacts EspGui EspGuiFacts.

(** The characters of a printed integer. *)
Definition numchar (c : N) : bool := ((48 <=? c) && (c <=? 57)) || (c =? 45).

Lemma numchar_digits (d : Decimal.uint) : forallb numchar (digits d) = true.
Proof. induction d; simpl; auto. Qed.

Lemma numchar_str_of_Z (z : Z) : forallb numchar (str_of_Z z) = true.
Proof.
  destruct z as [|p|p]; unfold str_of_Z, str_of_N.
  - reflexivity.
  - apply numchar_digits.
  - exact (numchar_digits (Pos.to_uint p)).
Qed.

Lemma digits_inj (d d' : Decimal.uint) : digits d = digits d' -> d = d'.
Proof.
  revert d'. induction d; destruct d'; simpl; intros E; try discriminate;
    try reflexivity; f_equal; apply IHd; congruence.
Qed.

Lemma digits_head (d : Decimal.uint) (r : str) : digits d <> 45 :: r.
Proof. destruct d; simpl; congruence. Qed.

Lemma str_of_Z_inj (z z' : Z) : str_of_Z z = str_of_Z z' -> z = z'.
Proof.
  assert (forall p r, digits (Pos.to_uint p) <> 45 :: r) as Hpos
      by (intros; apply digits_head).
  assert (forall p, digits (Pos.to_uint p) <> digits (N.to_uint 0)) as Hzero.
  { intros p E. apply digits_inj in E.
    by apply (DecimalPos.Unsigned.to_uint_nonzero p). }
  destruct z as [|p|p], z' as [|q|q]; unfold str_of_Z, str_of_N;
    cbn [Z.to_N N.to_uint]; intros E; try reflexivity.
  - symmetry in E. by apply Hzero in E.
  - discriminate.
  - by apply Hzero in E.
  - apply digits_inj, DecimalPos.Unsigned.to_uint_inj in E. by subst.
  - by apply Hpos in E.
  - discriminate.
  - symmetry in E. by apply Hpos in E.
  - injection E as E.
    apply digits_inj, DecimalPos.Unsigned.to_uint_inj in E. by subst.
Qed.

(** Two texts that agree up to and including their first character that is
    not part of a number. *)
Lemma number_then (a a' : str) (c c' : N) (r r' : str) :
  forallb numchar a = true -> forallb numchar a' = true ->
  numchar c = false -> numchar c' = false ->
  a ++ c :: r = a' ++ c' :: r' -> a = a' /\ r = r'.
Proof.
  revert a'. induction a as [|x a IH]; intros [|x' a'] Ha Ha' Hc Hc'; simpl.
  - by intros [= _ ->].
  - intros [= -> _]. simpl in Ha'. apply andb_true_iff in Ha' as [Hx _].
    congruence.
  - intros [= -> _]. simpl in Ha. apply andb_true_iff in Ha as [Hx _].
    congruence.
  - intros [= -> E]. simpl in Ha, Ha'.
    apply andb_true_iff in Ha as [_ Ha]. apply andb_true_iff in Ha' as [_ Ha'].
    destruct (IH a' Ha Ha' Hc Hc' E) as [-> ->]. done.
Qed.

Lemma toggle_cmd_inj (pin pin' val val' : Z) :
  toggle_cmd pin val = toggle_cmd pin' val' -> pin = pin' /\ val = val'.
Proof.
  unfold toggle_cmd. intros E. apply app_inv_head in E.
  change (u ", " ++ ?x) with (44 :: 32 :: x)%N in E.
  apply number_then in E as [E1 E2];
    [|apply numchar_str_of_Z|apply numchar_str_of_Z|done|done].
  injection E2 as E2. change (u ")" ++ [10%N]) with [41; 10]%N in E2.
  apply number_then in E2 as [E2 _];
    [|apply numchar_str_of_Z|apply numchar_str_of_Z|done|done].
  split; by apply str_of_Z_inj.
Qed.

(** X18: the bytes [toggle_pin] sends as its command name the pin and the
    state without ambiguity: two calls send the same command bytes only
    when they are for the same pin and the same state. *)
Theorem toggle_payload_inj (pin pin' : Z) (state state' : bool) :
  toggle_payload pin state = toggle_payload pin' state' ->
  pin = pin' /\ state = state'.
Proof.
  unfold toggle_payload. intros E. apply (f_equal (decode [])) in E.
  rewrite !decode_ascii in E by apply ascii_toggle_cmd.
  apply toggle_cmd_inj in E as [-> E]. split; [done|].
  by destruct state, state'.
Qed.

Lemma toggle_payload_inj_witness : 48%Z = 48%Z /\ true = true.
Proof. apply (toggle_payload_inj 48 48 true true). reflexivity. Defined.

End Command.
